(** * HDGL lattice ledger contract and telemetry servers

    A shallow embedding of
    - the Solidity contract [HDGLLatticeContract] (lattice script registry,
      state commitments, consensus flag),
    - the visualizer server's [readLatticeState] and its [/api/state] route,
    - the stats server's bounded [metricsHistory],
    together with the properties the specification states about them. *)

From Stdlib Require Import NArith ZArith Lia Ascii String.
From stdpp Require Import gmap strings list pretty.

Local Open Scope N_scope.

(** ** Keccak-256

    [keccak256] as the EVM computes it: Keccak-f[1600] with rate 136 bytes,
    the original Keccak padding (0x01 .. 0x80) and a 32 byte output.  Bytes
    are numbers below 256, lanes are numbers below 2^64. *)
Module Keccak.

Definition mask64 : N := 0xFFFFFFFFFFFFFFFF.

Definition rotl64 (x n : N) : N :=
  N.lor (N.land (N.shiftl x n) mask64) (N.shiftr x (64 - n)).

Definition not64 (x : N) : N := N.lxor (N.land x mask64) mask64.

(** The state is the list of its 25 lanes, lane (x, y) at index x + 5 y. *)
Definition lane (st : list N) (x y : nat) : N :=
  nth ((x mod 5) + 5 * (y mod 5))%nat st 0.

Definition build (f : nat -> nat -> N) : list N :=
  map (fun i => f (i mod 5)%nat (i / 5)%nat) (seq 0 25).

Definition column (st : list N) (x : nat) : N :=
  N.lxor (lane st x 0)
    (N.lxor (lane st x 1) (N.lxor (lane st x 2) (N.lxor (lane st x 3) (lane st x 4)))).

Definition theta (st : list N) : list N :=
  build (fun x y =>
    N.lxor (lane st x y)
      (N.lxor (column st (x + 4)) (rotl64 (column st (x + 1)) 1))).

Definition rotation_offsets : list N :=
  [  0;  1; 62; 28; 27;
    36; 44;  6; 55; 20;
     3; 10; 43; 25; 39;
    41; 45; 15; 21;  8;
    18;  2; 61; 56; 14 ].

Definition rho_pi (st : list N) : list N :=
  build (fun x y =>
    let x0 := ((x + 3 * y) mod 5)%nat in
    rotl64 (lane st x0 x) (nth (x0 + 5 * x)%nat rotation_offsets 0)).

Definition chi (st : list N) : list N :=
  build (fun x y =>
    N.lxor (lane st x y)
      (N.land (not64 (lane st (x + 1) y)) (lane st (x + 2) y))).

Definition iota (rc : N) (st : list N) : list N :=
  match st with
  | [] => []
  | a :: rest => N.lxor a rc :: rest
  end.

Definition round_constants : list N :=
  [ 0x0000000000000001; 0x0000000000008082; 0x800000000000808A;
    0x8000000080008000; 0x000000000000808B; 0x0000000080000001;
    0x8000000080008081; 0x8000000000008009; 0x000000000000008A;
    0x0000000000000088; 0x0000000080008009; 0x000000008000000A;
    0x000000008000808B; 0x800000000000008B; 0x8000000000008089;
    0x8000000000008003; 0x8000000000008002; 0x8000000000000080;
    0x000000000000800A; 0x800000008000000A; 0x8000000080008081;
    0x8000000000008080; 0x0000000080000001; 0x8000000080008008 ].

Definition round (st : list N) (rc : N) : list N :=
  iota rc (chi (rho_pi (theta st))).

Definition keccak_f (st : list N) : list N :=
  fold_left round round_constants st.

Definition rate : nat := 136.

(** Little-endian value of a run of bytes. *)
Fixpoint le_value (bs : list N) : N :=
  match bs with
  | [] => 0
  | b :: rest => b + 256 * le_value rest
  end.

Fixpoint lanes_of (n : nat) (bs : list N) : list N :=
  match n with
  | O => []
  | S n' => le_value (firstn 8 bs) :: lanes_of n' (skipn 8 bs)
  end.

Fixpoint xor_lanes (st blk : list N) : list N :=
  match st, blk with
  | s :: st', b :: blk' => N.lxor s b :: xor_lanes st' blk'
  | _, _ => st
  end.

Definition pad (msg : list N) : list N :=
  let q := (rate - (length msg mod rate))%nat in
  if Nat.eqb q 1 then msg ++ [0x81]
  else msg ++ [0x01] ++ repeat 0 (q - 2) ++ [0x80].

Fixpoint absorb (fuel : nat) (st : list N) (bs : list N) : list N :=
  match fuel with
  | O => st
  | S fuel' =>
      match bs with
      | [] => st
      | _ => absorb fuel' (keccak_f (xor_lanes st (lanes_of 17 (firstn rate bs))))
                    (skipn rate bs)
      end
  end.

Definition le_bytes8 (w : N) : list N :=
  map (fun i => (N.shiftr w (8 * N.of_nat i)) mod 256) (seq 0 8).

Definition squeeze (st : list N) : list N :=
  flat_map le_bytes8 (firstn 4 st).

Definition digest_bytes (msg : list N) : list N :=
  let p := pad msg in
  squeeze (absorb (length p) (repeat 0 25) p).

(** Big-endian value of a run of bytes: a [bytes32] read as a number. *)
Definition be_value (bs : list N) : N :=
  fold_left (fun acc b => acc * 256 + b) bs 0.

Definition keccak256 (msg : list N) : N := be_value (digest_bytes msg).

End Keccak.

(** ** The ledger contract [HDGLLatticeContract] *)
Module Ledger.

(** [uint256], [bytes32] and [address] values are natural numbers; the
    checked arithmetic of Solidity 0.8 is written out in [checked_add] and
    [checked_mul]. *)
Definition MAX_UINT256 : N := 2 ^ 256 - 1.

Record LatticeState := mkLatticeState {
  evolutionCount : N;
  phaseVariance : N;
  stateHash : N;
  timestamp : N;
  consensusLocked : bool }.

Record LatticeScript := mkLatticeScript {
  scriptHash : string;
  scriptContent : string;
  submitter : N;
  executionCount : N;
  latticeEffect : N;
  script_timestamp : N;
  verified : bool }.

Record Commitment := mkCommitment {
  commitmentHash : N;
  blockHeight : N;
  validator : N;
  commitment_timestamp : N;
  confirmed : bool }.

Record Contract := mkContract {
  currentState : LatticeState;
  latticeScripts : gmap string LatticeScript;
  commitments : gmap N Commitment;
  authorizedValidators : gmap N bool;
  scriptHashes : list string;
  commitmentHashes : list N }.

Inductive Event :=
| StateUpdate (evolution variance hash : N)
| ScriptExecuted (hash : string) (sender effect : N)
| CommitmentMade (hash sender height : N)
| ConsensusAchieved (hash time : N)
| ValidatorAuthorized (who : N).

(** What a call sees of the transaction and of the block. *)
Record Env := mkEnv {
  msg_sender : N;
  block_timestamp : N;
  block_number : N;
  block_difficulty : N }.

(** A mapping reads as the zero value where nothing was stored. *)
Definition zero_script : LatticeScript := mkLatticeScript "" "" 0 0 0 0 false.
Definition zero_commitment : Commitment := mkCommitment 0 0 0 0 false.

Definition script_at (c : Contract) (h : string) : LatticeScript :=
  default zero_script (latticeScripts c !! h).
Definition commitment_at (c : Contract) (h : N) : Commitment :=
  default zero_commitment (commitments c !! h).
Definition is_authorized (c : Contract) (a : N) : bool :=
  default false (authorizedValidators c !! a).

Definition set_currentState (s : LatticeState) (c : Contract) : Contract :=
  mkContract s (latticeScripts c) (commitments c) (authorizedValidators c)
             (scriptHashes c) (commitmentHashes c).
Definition set_script (h : string) (s : LatticeScript) (c : Contract) : Contract :=
  mkContract (currentState c) (<[h := s]> (latticeScripts c)) (commitments c)
             (authorizedValidators c) (scriptHashes c) (commitmentHashes c).
Definition set_commitment (h : N) (m : Commitment) (c : Contract) : Contract :=
  mkContract (currentState c) (latticeScripts c) (<[h := m]> (commitments c))
             (authorizedValidators c) (scriptHashes c) (commitmentHashes c).
Definition set_authorized (a : N) (c : Contract) : Contract :=
  mkContract (currentState c) (latticeScripts c) (commitments c)
             (<[a := true]> (authorizedValidators c))
             (scriptHashes c) (commitmentHashes c).
Definition push_scriptHash (h : string) (c : Contract) : Contract :=
  mkContract (currentState c) (latticeScripts c) (commitments c)
             (authorizedValidators c) (scriptHashes c ++ [h]) (commitmentHashes c).
Definition push_commitmentHash (h : N) (c : Contract) : Contract :=
  mkContract (currentState c) (latticeScripts c) (commitments c)
             (authorizedValidators c) (scriptHashes c) (commitmentHashes c ++ [h]).

(** *** Transactions: storage, events, revert *)
Inductive outcome (A : Type) :=
| Success (a : A)
| Revert (reason : string)
| Panic (code : N).
Arguments Success {A} a.
Arguments Revert {A} reason.
Arguments Panic {A} code.

Definition Tx (A : Type) : Type := Contract -> outcome (A * Contract * list Event).

Definition tx_ret {A} (a : A) : Tx A := fun c => Success (a, c, []).

Definition tx_bind {A B} (f : A -> Tx B) (m : Tx A) : Tx B := fun c =>
  match m c with
  | Success (a, c1, ev1) =>
      match f a c1 with
      | Success (b, c2, ev2) => Success (b, c2, ev1 ++ ev2)
      | Revert r => Revert r
      | Panic p => Panic p
      end
  | Revert r => Revert r
  | Panic p => Panic p
  end.

#[global] Instance Tx_mret : MRet Tx := @tx_ret.
#[global] Instance Tx_mbind : MBind Tx := @tx_bind.

Definition require (cond : bool) (reason : string) : Tx unit := fun c =>
  if cond then Success (tt, c, []) else Revert reason.
Definition emit (e : Event) : Tx unit := fun c => Success (tt, c, [e]).
Definition storage : Tx Contract := fun c => Success (c, c, []).
Definition store (f : Contract -> Contract) : Tx unit := fun c => Success (tt, f c, []).
Definition fail_panic {A} (code : N) : Tx A := fun _ => Panic code.

Definition checked_add (a b : N) : Tx N :=
  if a + b <=? MAX_UINT256 then mret (a + b) else fail_panic 0x11.
Definition checked_mul (a b : N) : Tx N :=
  if a * b <=? MAX_UINT256 then mret (a * b) else fail_panic 0x11.

(** *** ABI encoding and hashing *)
Definition bytes_of_string (s : string) : list N :=
  map N_of_ascii (list_ascii_of_string s).

(** Byte [i] of a [bytes32], most significant first. *)
Definition byte_at (data : N) (i : nat) : N :=
  (data / 256 ^ N.of_nat (31 - i)) mod 256.

(** [abi.encodePacked] of one [uint256]: 32 bytes, big-endian. *)
Definition encode_uint256 (n : N) : list N := map (byte_at n) (seq 0 32).

Definition encodePacked (words : list N) : list N := flat_map encode_uint256 words.

Definition keccak256 : list N -> N := Keccak.keccak256.

Definition alphabet : list ascii := list_ascii_of_string "0123456789abcdef".

Definition hex_digit (n : N) : ascii := nth (N.to_nat n) alphabet "0"%char.

Definition toHexString (data : N) : string :=
  string_of_list_ascii
    (flat_map (fun i => [hex_digit (N.shiftr (byte_at data i) 4);
                         hex_digit (N.land (byte_at data i) 0x0f)])
              (seq 0 32)).

(** *** The contract's functions *)

Definition genesis_hash : N := keccak256 (bytes_of_string "genesis").

(** The constructor: genesis state, the deployer as first validator. *)
Definition constructor (env : Env) : Contract * list Event :=
  (mkContract
     (mkLatticeState 0 1123580 genesis_hash (block_timestamp env) false)
     ∅ ∅ {[ msg_sender env := true ]} [] [],
   [ValidatorAuthorized (msg_sender env)]).

Definition onlyAuthorized (env : Env) : Tx unit :=
  c ← storage;
  require (is_authorized c (msg_sender env)) "Not authorized validator".

Definition authorizeValidator (env : Env) (validator : N) : Tx unit :=
  onlyAuthorized env;;
  store (set_authorized validator);;
  emit (ValidatorAuthorized validator).

Definition _updateLatticeState (env : Env) (latticeEffect : N) : Tx unit :=
  c ← storage;
  let st := currentState c in
  count ← checked_add (evolutionCount st) 1;
  let goldenRatio := 1618034 in
  product ← checked_mul latticeEffect goldenRatio;
  let varianceChange := product / 1000000 in
  total ← checked_add (phaseVariance st) varianceChange;
  let variance := total mod 2000000 in
  let hash := keccak256 (encodePacked
                [count; variance; block_timestamp env; block_difficulty env]) in
  store (set_currentState
           (mkLatticeState count variance hash (block_timestamp env) false));;
  emit (StateUpdate count variance hash).

Definition executeLatticeScript (env : Env) (content : string) (effect : N)
    : Tx string :=
  let hash := toHexString (keccak256 (bytes_of_string content)) in
  c ← storage;
  (if (String.length (scriptHash (script_at c hash)) =? 0)%nat then
     store (set_script hash
              (mkLatticeScript hash content (msg_sender env) 1 effect
                               (block_timestamp env) false));;
     store (push_scriptHash hash)
   else
     let old := script_at c hash in
     count ← checked_add (executionCount old) 1;
     store (set_script hash
              (mkLatticeScript (scriptHash old) (scriptContent old) (submitter old)
                               count effect (block_timestamp env) (verified old))));;
  emit (ScriptExecuted hash (msg_sender env) effect);;
  _updateLatticeState env effect;;
  mret hash.

Definition makeCommitment (env : Env) (hash : N) : Tx unit :=
  onlyAuthorized env;;
  c ← storage;
  require (validator (commitment_at c hash) =? 0) "Commitment already exists";;
  store (set_commitment hash
           (mkCommitment hash (block_number env) (msg_sender env)
                         (block_timestamp env) false));;
  store (push_commitmentHash hash);;
  emit (CommitmentMade hash (msg_sender env) (block_number env)).

Definition confirmCommitment (env : Env) (hash : N) : Tx unit :=
  onlyAuthorized env;;
  c ← storage;
  let m := commitment_at c hash in
  require (negb (validator m =? 0)) "Commitment does not exist";;
  require (negb (confirmed m)) "Already confirmed";;
  store (set_commitment hash
           (mkCommitment (commitmentHash m) (blockHeight m) (validator m)
                         (commitment_timestamp m) true));;
  c' ← storage;
  if negb (consensusLocked (currentState c')) then
    let st := currentState c' in
    store (set_currentState
             (mkLatticeState (evolutionCount st) (phaseVariance st) (stateHash st)
                             (timestamp st) true));;
    emit (ConsensusAchieved (stateHash st) (block_timestamp env))
  else mret tt.

Definition emergencyPause (env : Env) : Tx unit := onlyAuthorized env.

Definition script_hash_of (content : string) : string :=
  toHexString (keccak256 (bytes_of_string content)).

Definition getScriptCount (c : Contract) : nat := length (scriptHashes c).
Definition getCommitmentCount (c : Contract) : nat := length (commitmentHashes c).

(** *** Calls and runs *)
Inductive Call :=
| AuthorizeValidator (who : N)
| ExecuteLatticeScript (content : string) (effect : N)
| MakeCommitment (hash : N)
| ConfirmCommitment (hash : N)
| EmergencyPause.

Definition erase {A} (m : Tx A) : Tx unit := m;; mret tt.

Definition dispatch (env : Env) (call : Call) : Tx unit :=
  match call with
  | AuthorizeValidator who => authorizeValidator env who
  | ExecuteLatticeScript content effect => erase (executeLatticeScript env content effect)
  | MakeCommitment hash => makeCommitment env hash
  | ConfirmCommitment hash => confirmCommitment env hash
  | EmergencyPause => emergencyPause env
  end.

Definition succeeds {A} (o : outcome A) : bool :=
  match o with Success _ => true | _ => false end.

(** A transaction commits its storage writes, or reverts and leaves the
    storage as it was. *)
Definition transact (env : Env) (call : Call) (c : Contract) : Contract :=
  match dispatch env call c with
  | Success (_, c', _) => c'
  | _ => c
  end.

Definition logs (env : Env) (call : Call) (c : Contract) : list Event :=
  match dispatch env call c with
  | Success (_, _, events) => events
  | _ => []
  end.

Fixpoint run (c : Contract) (txs : list (Env * Call)) : Contract :=
  match txs with
  | [] => c
  | (env, call) :: rest => run (transact env call c) rest
  end.

(** The script hashes of the [executeLatticeScript] calls of a run that went
    through. *)
Fixpoint submitted (c : Contract) (txs : list (Env * Call)) : list string :=
  match txs with
  | [] => []
  | (env, call) :: rest =>
      match call with
      | ExecuteLatticeScript content _ =>
          if succeeds (dispatch env call c)
          then [toHexString (keccak256 (bytes_of_string content))]
          else []
      | _ => []
      end ++ submitted (transact env call c) rest
  end.

(** Every transaction of the run goes through. *)
Fixpoint completes (c : Contract) (txs : list (Env * Call)) : bool :=
  match txs with
  | [] => true
  | (env, call) :: rest =>
      succeeds (dispatch env call c) && completes (transact env call c) rest
  end.

(** A run made of script executions only. *)
Definition scripts (l : list (Env * string * N)) : list (Env * Call) :=
  map (fun '(env, content, effect) => (env, ExecuteLatticeScript content effect)) l.

(** Two script executions that carry the same effect in blocks with the same
    timestamp and difficulty. *)
Definition same_update (a b : Env * string * N) : Prop :=
  a.2 = b.2 /\
  block_timestamp a.1.1 = block_timestamp b.1.1 /\
  block_difficulty a.1.1 = block_difficulty b.1.1.

(** Two lattice states with the same counter, variance and hash. *)
Definition same_lattice (a b : LatticeState) : Prop :=
  evolutionCount a = evolutionCount b /\
  phaseVariance a = phaseVariance b /\
  stateHash a = stateHash b.

(** The registry invariant: no hash is listed twice, and the listed hashes
    are those with a script stored under them. *)
Definition registry_ok (c : Contract) : Prop :=
  NoDup (scriptHashes c) /\
  forall h, h ∈ scriptHashes c <-> scriptHash (script_at c h) <> ""%string.

(** *** Notions used in the statements *)

(** The bounds within which the checked arithmetic of a state update goes
    through. *)
Definition update_fits (st : LatticeState) (effect : N) : Prop :=
  evolutionCount st + 1 <= MAX_UINT256 /\
  effect * 1618034 <= MAX_UINT256 /\
  phaseVariance st + effect * 1618034 / 1000000 <= MAX_UINT256.

Definition execute_fits (c : Contract) (content : string) (effect : N) : Prop :=
  update_fits (currentState c) effect /\
  executionCount (script_at c (script_hash_of content)) + 1 <= MAX_UINT256.

(** The state an update writes. *)
Definition updated_state (env : Env) (st : LatticeState) (effect : N) : LatticeState :=
  let count := evolutionCount st + 1 in
  let variance := (phaseVariance st + effect * 1618034 / 1000000) mod 2000000 in
  mkLatticeState count variance
    (keccak256 (encodePacked [count; variance; block_timestamp env; block_difficulty env]))
    (block_timestamp env) false.

(** The storage [confirmCommitment] leaves behind. *)
Definition confirmed_storage (hash : N) (c : Contract) : Contract :=
  let m := commitment_at c hash in
  let c1 := set_commitment hash
              (mkCommitment (commitmentHash m) (blockHeight m) (validator m)
                            (commitment_timestamp m) true) c in
  if consensusLocked (currentState c) then c1
  else set_currentState
         (mkLatticeState (evolutionCount (currentState c))
            (phaseVariance (currentState c)) (stateHash (currentState c))
            (timestamp (currentState c)) true) c1.

Inductive reachable : Contract -> Prop :=
| reachable_deployed env : reachable (constructor env).1
| reachable_transact env call c : reachable c -> reachable (transact env call c).

(** *** The views *)

Definition getLatticeScript (c : Contract) (hash : string)
    : string * N * N * N * N * bool :=
  let script := script_at c hash in
  (scriptContent script, submitter script, executionCount script,
   latticeEffect script, script_timestamp script, verified script).

Definition getCommitment (c : Contract) (hash : N) : N * N * N * bool :=
  let commitment := commitment_at c hash in
  (blockHeight commitment, validator commitment,
   commitment_timestamp commitment, confirmed commitment).

(** The loop of [getNetworkStats] over [commitmentHashes], from index [i] on,
    with its two checked increments. *)
Fixpoint count_confirmed (rest : list N) (i count : N) : Tx N :=
  match rest with
  | [] => mret count
  | hash :: rest' =>
      c ← storage;
      count' ← (if confirmed (commitment_at c hash)
                then checked_add count 1 else mret count);
      i' ← checked_add i 1;
      count_confirmed rest' i' count'
  end.

(** totalScripts, totalCommitments, confirmedCommitments, consensusStatus. *)
Definition getNetworkStats : Tx (N * N * N * bool) :=
  c ← storage;
  count ← count_confirmed (commitmentHashes c) 0 0;
  mret (N.of_nat (length (scriptHashes c)),
        N.of_nat (length (commitmentHashes c)),
        count,
        consensusLocked (currentState c)).

(** *** What a run did *)

(** The digests of the [makeCommitment] calls of a run that went through. *)
Fixpoint made (c : Contract) (txs : list (Env * Call)) : list N :=
  match txs with
  | [] => []
  | (env, call) :: rest =>
      match call with
      | MakeCommitment hash =>
          if succeeds (dispatch env call c) then [hash] else []
      | _ => []
      end ++ made (transact env call c) rest
  end.

(** The variance changes of the [executeLatticeScript] calls of a run that
    went through. *)
Fixpoint variance_changes (c : Contract) (txs : list (Env * Call)) : list N :=
  match txs with
  | [] => []
  | (env, call) :: rest =>
      match call with
      | ExecuteLatticeScript _ effect =>
          if succeeds (dispatch env call c)
          then [effect * 1618034 / 1000000] else []
      | _ => []
      end ++ variance_changes (transact env call c) rest
  end.

Definition sum_list (l : list N) : N := fold_right N.add 0 l.

(** Reading a hex string back: the value of a digit, of a string. *)
Definition hex_value (a : ascii) : N :=
  let n := N_of_ascii a in
  if (48 <=? n) && (n <=? 57) then n - 48
  else if (97 <=? n) && (n <=? 102) then n - 87
  else 0.

Definition fromHexString (s : string) : N :=
  fold_left (fun acc a => acc * 16 + hex_value a) (list_ascii_of_string s) 0.

(** The stored scripts of a state: each listed hash is the hash of the
    content stored under it, was executed at least once and is not verified;
    nothing is stored under the other hashes. *)
Definition scripts_ok (c : Contract) : Prop :=
  forall h,
    (h ∈ scriptHashes c ->
       scriptHash (script_at c h) = h /\
       script_hash_of (scriptContent (script_at c h)) = h /\
       1 <= executionCount (script_at c h) /\
       verified (script_at c h) = false) /\
    (h ∉ scriptHashes c -> script_at c h = zero_script).

(** The stored commitments of a state: exactly the listed digests have a
    validator, and every commitment with a validator carries its own digest. *)
Definition commitments_ok (c : Contract) : Prop :=
  forall h,
    (h ∉ commitmentHashes c -> commitment_at c h = zero_commitment) /\
    (validator (commitment_at c h) <> 0 -> commitmentHash (commitment_at c h) = h).

End Ledger.

(** ** JavaScript values and files shared by the two servers *)
Module JS.

(** What [JSON.parse] can return, and what the servers build.  An array
    carries its items and the named properties assigned to it. *)
#[local] Unset Elimination Schemes.
Inductive jsval :=
| JNull
| JBool (b : bool)
| JNum (n : Z)
| JStr (s : string)
| JArr (items : list jsval) (named : list (string * jsval))
| JObj (props : list (string * jsval)).
#[local] Set Elimination Schemes.

(** The text of a file, as [JSON.parse] sees it: text it accepts, with the
    value it returns, or text it rejects with a [SyntaxError]. *)
Inductive file_text :=
| Parses (v : jsval)
| Malformed (raw : string).

(** [o[key] = v] on a property list: an existing key keeps its place. *)
Fixpoint assign (key : string) (v : jsval) (props : list (string * jsval))
    : list (string * jsval) :=
  match props with
  | [] => [(key, v)]
  | (k, w) :: rest =>
      if String.eqb k key then (k, v) :: rest else (k, w) :: assign key v rest
  end.

(** [x.key = v] in sloppy mode: a [TypeError] on [null] ([None]), ignored on
    the other primitives. *)
Definition set_property (x : jsval) (key : string) (v : jsval) : option jsval :=
  match x with
  | JNull => None
  | JObj props => Some (JObj (assign key v props))
  | JArr items named => Some (JArr items (assign key v named))
  | _ => Some x
  end.

Definition truthy (x : jsval) : bool :=
  match x with
  | JNull => false
  | JBool b => b
  | JNum n => negb (n =? 0)%Z
  | JStr s => negb (String.eqb s "")
  | _ => true
  end.

End JS.

(** ** The visualizer server: [readLatticeState] and [/api/state] *)
Module Visualizer.
Import JS.

Definition defaultState : jsval :=
  JObj [ ("dimensions"%string, JArr (repeat (JNum 1) 8) []);
         ("phases"%string, JArr (repeat (JNum 0) 8) []);
         ("tape"%string, JArr (repeat (JNum 0) 8) []);
         ("timestamp"%string, JNum 0) ].

(** The file [/app/data/state.json]: absent or holding some text, and
    whether [fs.writeFileSync] on it goes through. *)
Record Disk := mkDisk {
  state_json : option file_text;
  writable : bool }.

(** The value returned ([JNull] for [null]), the disk afterwards and the
    lines sent to [console.error]. *)
Definition readLatticeState (d : Disk) : jsval * Disk * list string :=
  match state_json d with
  | Some (Parses v) => (v, d, [])
  | _ =>
      if writable d
      then (defaultState,
            mkDisk (Some (Parses defaultState)) (writable d),
            ["Error reading state:"%string])
      else (JNull, d,
            ["Error reading state:"%string; "Error writing default state:"%string])
  end.

Record Response := mkResponse {
  status : nat;
  body : jsval }.

Definition api_state (d : Disk) : Response * Disk :=
  let '(state, d', _) := readLatticeState d in
  if truthy state then (mkResponse 200 state, d')
  else (mkResponse 500 (JObj [("error"%string, JStr "Could not read state")]), d').

(** The broadcast loop.  [JSON.stringify] is the platform's; the loop only
    compares its results. *)
Section UpdateLoop.
Variable JSON_stringify : jsval -> string.

(** One run of the [setInterval] callback on the server's [currentState]:
    the new [currentState], the disk and the states sent to all clients. *)
Definition update_tick (d : Disk) (current : jsval) : jsval * Disk * list jsval :=
  let '(newState, d', _) := readLatticeState d in
  if truthy newState
     && negb (String.eqb (JSON_stringify newState) (JSON_stringify current))
  then (newState, d', [newState])
  else (current, d', []).

(** A series of ticks with nothing else touching the disk. *)
Fixpoint update_ticks (n : nat) (d : Disk) (current : jsval)
    : jsval * Disk * list jsval :=
  match n with
  | O => (current, d, [])
  | S n' =>
      let '(current', d', sent) := update_tick d current in
      let '(current'', d'', sent') := update_ticks n' d' current' in
      (current'', d'', sent ++ sent')
  end.

(** A series of ticks, each seeing the disk as other processes left it. *)
Fixpoint broadcast_run (disks : list Disk) (current : jsval) : jsval * list jsval :=
  match disks with
  | [] => (current, [])
  | d :: rest =>
      let '(current', _, sent) := update_tick d current in
      let '(current'', sent') := broadcast_run rest current' in
      (current'', sent ++ sent')
  end.

End UpdateLoop.

(** What a client gets on connecting. *)
Definition on_connection (current : jsval) : list jsval :=
  if truthy current then [current] else [].

End Visualizer.

(** ** The stats server: the bounded [metricsHistory] *)
Module Stats.
Import JS.

Definition MAX_HISTORY : nat := 1000.

(** [getHDGLMetrics]: the parsed [/app/data/metrics.json], or a fresh empty
    object when reading or parsing throws. *)
Definition getHDGLMetrics (file : option file_text) : jsval :=
  match file with
  | Some (Parses v) => v
  | _ => JObj []
  end.

(** [metricsHistory.push(metrics)] and the [shift()] that follows it. *)
Definition record_metrics (metrics : jsval) (history : list jsval) : list jsval :=
  let pushed := history ++ [metrics] in
  if (MAX_HISTORY <? length pushed)%nat then tail pushed else pushed.

(** One run of the [setInterval] callback, given the file and [Date.now()]:
    the new history and the value broadcast, [None] when the assignment of
    the timestamp throws. *)
Definition tick (file : option file_text) (now : Z) (history : list jsval)
    : option (list jsval * jsval) :=
  match set_property (getHDGLMetrics file) "timestamp" (JNum now) with
  | Some metrics => Some (record_metrics metrics history, metrics)
  | None => None
  end.

(** The history after a series of ticks that all complete, and the entries
    they recorded, oldest first. *)
Fixpoint ticks (inputs : list (option file_text * Z)) (history : list jsval)
    : option (list jsval) :=
  match inputs with
  | [] => Some history
  | (file, now) :: rest =>
      match tick file now history with
      | Some (history', _) => ticks rest history'
      | None => None
      end
  end.

Fixpoint recorded (inputs : list (option file_text * Z)) : list jsval :=
  match inputs with
  | [] => []
  | (file, now) :: rest =>
      match set_property (getHDGLMetrics file) "timestamp" (JNum now) with
      | Some metrics => metrics :: recorded rest
      | None => recorded rest
      end
  end.

End Stats.

(** ** Concrete runs used in the examples *)
Module Scenario.
Import Ledger.

Definition deployer : Env := mkEnv 1 1000 10 7.
Definition stranger : Env := mkEnv 2 1060 11 7.

Definition later : Env := mkEnv 1 1001 10 7.

(** The contract right after deployment. *)
Definition genesis : Contract := (constructor deployer).1.

(** A digest committed by the deployer, then the same digest confirmed. *)
Definition committed : Contract := transact deployer (MakeCommitment 7) genesis.
Definition locked : Contract := transact deployer (ConfirmCommitment 7) committed.

(** A rendering of values as JSON text (integers, strings without escapes),
    used to run the broadcast loop on examples. *)
Fixpoint render_json (v : JS.jsval) : string :=
  match v with
  | JS.JNull => "null"
  | JS.JBool b => if b then "true" else "false"
  | JS.JNum n => pretty n
  | JS.JStr s => String.append (String "034"%char s) (String "034"%char "")
  | JS.JArr items _ =>
      String.append "[" (String.append
        (String.concat "," (map render_json items)) "]")
  | JS.JObj props =>
      String.append "{" (String.append
        (String.concat ","
           (map (fun kv => String.append (String "034"%char (fst kv))
                             (String.append (String "034"%char ":")
                                            (render_json (snd kv)))) props)) "}")
  end.

End Scenario.

(** * Properties of the ledger contract *)

(** ** The hash function and the hex encoding *)

Example keccak256_empty :
  Keccak.keccak256 [] =
    0xc5d2460186f7233c927e7db2dcc703c0e500b653ca82273b7bfad8045d85a470.
Proof. vm_compute. reflexivity. Qed.

Example keccak256_abc :
  Ledger.toHexString (Keccak.keccak256 (Ledger.bytes_of_string "abc")) =
    "4e03657aea45a94fc7d47ba826c8d667c0d1e6e33a64a036ec44f58fa12d6c45"%string.
Proof. vm_compute. reflexivity. Qed.

Lemma string_of_list_ascii_length (l : list ascii) :
  String.length (string_of_list_ascii l) = length l.
Proof. induction l as [|a l IH]; cbn; congruence. Qed.

Lemma flat_map_pair_length {A B} (f g : A -> B) (l : list A) :
  length (flat_map (fun i => [f i; g i]) l) = (2 * length l)%nat.
Proof. induction l as [|a l IH]; cbn; lia. Qed.

Lemma toHexString_length (data : N) :
  String.length (Ledger.toHexString data) = 64%nat.
Proof.
  unfold Ledger.toHexString.
  rewrite string_of_list_ascii_length, flat_map_pair_length. reflexivity.
Qed.

Lemma script_hash_nonempty (content : string) :
  Ledger.script_hash_of content <> ""%string.
Proof.
  intros E. pose proof (toHexString_length
    (Ledger.keccak256 (Ledger.bytes_of_string content))) as Hlen.
  unfold Ledger.script_hash_of in E. rewrite E in Hlen. discriminate.
Qed.

Section LedgerFacts.
Import Ledger Scenario.

#[local] Opaque keccak256 toHexString.

Ltac tx_unfold :=
  unfold mbind, Tx_mbind, tx_bind, mret, Tx_mret, tx_ret, storage, store, emit,
    require, checked_add, checked_mul, fail_panic in *.

Lemma updateLatticeState_success env effect c :
  update_fits (currentState c) effect ->
  _updateLatticeState env effect c =
    Success (tt, set_currentState (updated_state env (currentState c) effect) c,
             [StateUpdate (evolutionCount (updated_state env (currentState c) effect))
                          (phaseVariance (updated_state env (currentState c) effect))
                          (stateHash (updated_state env (currentState c) effect))]).
Proof.
  intros (H1 & H2 & H3). unfold _updateLatticeState, updated_state. tx_unfold.
  apply N.leb_le in H1, H2, H3. cbn [evolutionCount phaseVariance stateHash].
  rewrite H1. tx_unfold. rewrite H2. tx_unfold. rewrite H3. reflexivity.
Qed.

Lemma updateLatticeState_inv env effect c u c' events :
  _updateLatticeState env effect c = Success (u, c', events) ->
  update_fits (currentState c) effect /\
  c' = set_currentState (updated_state env (currentState c) effect) c.
Proof.
  unfold _updateLatticeState, updated_state, update_fits. tx_unfold.
  destruct (evolutionCount (currentState c) + 1 <=? MAX_UINT256) eqn:H1;
    tx_unfold; [|discriminate].
  destruct (effect * 1618034 <=? MAX_UINT256) eqn:H2; tx_unfold; [|discriminate].
  destruct (phaseVariance (currentState c) + effect * 1618034 / 1000000 <=? MAX_UINT256)
    eqn:H3; tx_unfold; [|discriminate].
  intros [= <- <-]. apply N.leb_le in H1, H2, H3. auto.
Qed.

Lemma length_zero_empty (s : string) :
  (String.length s =? 0)%nat = true <-> s = ""%string.
Proof.
  destruct s; simpl; split; intros H; try reflexivity; discriminate.
Qed.

Lemma executeLatticeScript_inv env content effect c h c' events :
  executeLatticeScript env content effect c = Success (h, c', events) ->
  h = script_hash_of content /\
  update_fits (currentState c) effect /\
  currentState c' = updated_state env (currentState c) effect /\
  commitments c' = commitments c /\
  authorizedValidators c' = authorizedValidators c /\
  commitmentHashes c' = commitmentHashes c /\
  ((scriptHash (script_at c h) = ""%string /\
    scriptHashes c' = scriptHashes c ++ [h] /\
    latticeScripts c' =
      <[h := mkLatticeScript h content (msg_sender env) 1 effect
               (block_timestamp env) false]> (latticeScripts c))
   \/
   (scriptHash (script_at c h) <> ""%string /\
    executionCount (script_at c h) + 1 <= MAX_UINT256 /\
    scriptHashes c' = scriptHashes c /\
    latticeScripts c' =
      <[h := mkLatticeScript (scriptHash (script_at c h))
               (scriptContent (script_at c h)) (submitter (script_at c h))
               (executionCount (script_at c h) + 1) effect
               (block_timestamp env) (verified (script_at c h))]>
        (latticeScripts c))).
Proof.
  unfold executeLatticeScript, script_hash_of.
  set (hash := toHexString (keccak256 (bytes_of_string content))).
  tx_unfold.
  destruct (String.length (scriptHash (script_at c hash)) =? 0)%nat eqn:Hnew.
  - apply length_zero_empty in Hnew.
    match goal with
    | |- context [_updateLatticeState env effect ?d] =>
        destruct (_updateLatticeState env effect d) as [[[u d'] ev]|r|p] eqn:Hup
    end; try discriminate.
    intros [= <- <- <-]. apply updateLatticeState_inv in Hup as [Hfit ->].
    pose proof Hfit as (? & ? & ?). cbn in *. repeat split; auto.
  - assert (scriptHash (script_at c hash) <> ""%string) as Hold.
    { intros E. apply length_zero_empty in E. congruence. }
    destruct (executionCount (script_at c hash) + 1 <=? MAX_UINT256) eqn:Hcount;
      tx_unfold; [|discriminate].
    apply N.leb_le in Hcount.
    match goal with
    | |- context [_updateLatticeState env effect ?d] =>
        destruct (_updateLatticeState env effect d) as [[[u d'] ev]|r|p] eqn:Hup
    end; try discriminate.
    intros [= <- <- <-]. apply updateLatticeState_inv in Hup as [Hfit ->].
    pose proof Hfit as (? & ? & ?). cbn in *. repeat split; auto.
    all: right; repeat split; auto.
Qed.

Lemma executeLatticeScript_success env content effect c :
  execute_fits c content effect ->
  exists c' events,
    executeLatticeScript env content effect c
      = Success (script_hash_of content, c', events).
Proof.
  intros [Hfit Hcount]. unfold executeLatticeScript.
  fold (script_hash_of content). tx_unfold.
  destruct (String.length (scriptHash (script_at c (script_hash_of content))) =? 0)%nat.
  - rewrite updateLatticeState_success by exact Hfit. eauto.
  - apply N.leb_le in Hcount. rewrite Hcount. tx_unfold.
    rewrite updateLatticeState_success by exact Hfit. eauto.
Qed.

Lemma onlyAuthorized_eq env c :
  onlyAuthorized env c =
    if is_authorized c (msg_sender env) then Success (tt, c, [])
    else Revert "Not authorized validator".
Proof. unfold onlyAuthorized. tx_unfold. now destruct (is_authorized _ _). Qed.

Lemma guarded_unauthorized {A} env (k : Tx A) c :
  is_authorized c (msg_sender env) = false ->
  (onlyAuthorized env;; k) c = Revert "Not authorized validator".
Proof.
  intros H. unfold mbind, Tx_mbind, tx_bind. now rewrite onlyAuthorized_eq, H.
Qed.

Lemma guarded_authorized {A} env (k : Tx A) c :
  is_authorized c (msg_sender env) = true ->
  (onlyAuthorized env;; k) c = k c.
Proof.
  intros H. unfold mbind, Tx_mbind, tx_bind. rewrite onlyAuthorized_eq, H.
  destruct (k c) as [[[a c'] ev]| |]; reflexivity.
Qed.

Lemma authorizeValidator_inv env who c u c' events :
  authorizeValidator env who c = Success (u, c', events) ->
  is_authorized c (msg_sender env) = true /\
  c' = set_authorized who c /\ events = [ValidatorAuthorized who].
Proof.
  unfold authorizeValidator.
  destruct (is_authorized c (msg_sender env)) eqn:Hauth.
  - rewrite guarded_authorized by exact Hauth. tx_unfold. intros [= <- <-]. auto.
  - rewrite guarded_unauthorized by exact Hauth. discriminate.
Qed.

Lemma makeCommitment_inv env hash c u c' events :
  makeCommitment env hash c = Success (u, c', events) ->
  is_authorized c (msg_sender env) = true /\
  validator (commitment_at c hash) = 0 /\
  c' = push_commitmentHash hash
         (set_commitment hash
            (mkCommitment hash (block_number env) (msg_sender env)
                          (block_timestamp env) false) c) /\
  events = [CommitmentMade hash (msg_sender env) (block_number env)].
Proof.
  unfold makeCommitment.
  destruct (is_authorized c (msg_sender env)) eqn:Hauth.
  - rewrite guarded_authorized by exact Hauth. tx_unfold.
    destruct (validator (commitment_at c hash) =? 0) eqn:Hfree; [|discriminate].
    apply N.eqb_eq in Hfree. intros [= <- <-]. auto.
  - rewrite guarded_unauthorized by exact Hauth. discriminate.
Qed.

Lemma confirmCommitment_inv env hash c u c' events :
  confirmCommitment env hash c = Success (u, c', events) ->
  is_authorized c (msg_sender env) = true /\
  validator (commitment_at c hash) <> 0 /\
  confirmed (commitment_at c hash) = false /\
  c' = confirmed_storage hash c /\
  events = if consensusLocked (currentState c) then []
           else [ConsensusAchieved (stateHash (currentState c)) (block_timestamp env)].
Proof.
  unfold confirmCommitment, confirmed_storage.
  destruct (is_authorized c (msg_sender env)) eqn:Hauth.
  - rewrite guarded_authorized by exact Hauth. tx_unfold.
    destruct (validator (commitment_at c hash) =? 0) eqn:Hexists; [discriminate|].
    apply N.eqb_neq in Hexists. cbn [negb].
    destruct (confirmed (commitment_at c hash)) eqn:Hconf; [discriminate|].
    cbn [negb currentState set_commitment].
    destruct (consensusLocked (currentState c)) eqn:Hlock; cbn [negb];
      intros [= <- <-]; auto.
  - rewrite guarded_unauthorized by exact Hauth. discriminate.
Qed.

Lemma confirmCommitment_success env hash c :
  is_authorized c (msg_sender env) = true ->
  validator (commitment_at c hash) <> 0 ->
  confirmed (commitment_at c hash) = false ->
  exists events, confirmCommitment env hash c
                 = Success (tt, confirmed_storage hash c, events).
Proof.
  intros Hauth Hexists Hconf. unfold confirmCommitment, confirmed_storage.
  rewrite guarded_authorized by exact Hauth. tx_unfold.
  apply N.eqb_neq in Hexists. rewrite Hexists, Hconf.
  cbn [negb currentState set_commitment].
  destruct (consensusLocked (currentState c)); cbn [negb]; eauto.
Qed.

(** *** Transactions seen from outside *)

Lemma erase_eq {A} (m : Tx A) c :
  erase m c = match m c with
              | Success (_, c', events) => Success (tt, c', events ++ [])
              | Revert r => Revert r
              | Panic p => Panic p
              end.
Proof.
  unfold erase. tx_unfold. destruct (m c) as [[[a c'] ev]| |]; reflexivity.
Qed.

Lemma succeeds_erase {A} (m : Tx A) c : succeeds (erase m c) = succeeds (m c).
Proof. rewrite erase_eq. destruct (m c) as [[[a c'] ev]| |]; reflexivity. Qed.

Lemma transact_execute env content effect c :
  transact env (ExecuteLatticeScript content effect) c =
    match executeLatticeScript env content effect c with
    | Success (_, c', _) => c'
    | _ => c
    end.
Proof.
  unfold transact, dispatch. rewrite erase_eq.
  destruct (executeLatticeScript env content effect c) as [[[a c'] ev]| |];
    reflexivity.
Qed.

Lemma succeeds_inv {A} (o : outcome A) :
  succeeds o = true -> exists a, o = Success a.
Proof. destruct o; [eauto | discriminate | discriminate]. Qed.

(** What each kind of call does to the lattice state. *)
Lemma transact_currentState env call c :
  currentState (transact env call c) =
    match call with
    | ExecuteLatticeScript content effect =>
        if succeeds (executeLatticeScript env content effect c)
        then updated_state env (currentState c) effect
        else currentState c
    | ConfirmCommitment hash =>
        if succeeds (confirmCommitment env hash c)
        then mkLatticeState (evolutionCount (currentState c))
               (phaseVariance (currentState c)) (stateHash (currentState c))
               (timestamp (currentState c)) true
        else currentState c
    | _ => currentState c
    end.
Proof.
  destruct call as [who|content effect|hash|hash|].
  - unfold transact, dispatch.
    destruct (authorizeValidator env who c) as [[[u c'] ev]| |] eqn:E; auto.
    apply authorizeValidator_inv in E as (_ & -> & _). reflexivity.
  - rewrite transact_execute.
    destruct (executeLatticeScript env content effect c) as [[[h c'] ev]| |] eqn:E;
      auto.
    apply executeLatticeScript_inv in E. cbn. tauto.
  - unfold transact, dispatch.
    destruct (makeCommitment env hash c) as [[[u c'] ev]| |] eqn:E; auto.
    apply makeCommitment_inv in E as (_ & _ & -> & _). reflexivity.
  - unfold transact, dispatch.
    destruct (confirmCommitment env hash c) as [[[u c'] ev]| |] eqn:E; auto.
    apply confirmCommitment_inv in E as (_ & _ & _ & -> & _).
    unfold confirmed_storage. cbn [succeeds].
    destruct (currentState c) as [ec pv sh ts []] eqn:Hc; cbn; rewrite ?Hc; reflexivity.
  - unfold transact, dispatch, emergencyPause. rewrite onlyAuthorized_eq.
    destruct (is_authorized c (msg_sender env)); reflexivity.
Qed.

(** ** Phase variance stays below the fixed-point bound *)

(** C7: in every state the contract can reach, from the genesis state on and
    after every state update, phase_variance is non-negative and strictly
    below 2,000,000. *)
Theorem phase_variance_bounded (c : Contract) :
  reachable c ->
  0 <= phaseVariance (currentState c) /\ phaseVariance (currentState c) < 2000000.
Proof.
  intros Hreach. split; [apply N.le_0_l|].
  induction Hreach as [env|env call c Hreach IH].
  - cbn. reflexivity.
  - rewrite transact_currentState.
    destruct call as [who|content effect|hash|hash|]; auto.
    + destruct (succeeds _); auto. cbn. apply N.mod_lt. discriminate.
    + destruct (succeeds _); auto.
Qed.

Lemma phase_variance_bounded_witness :
  0 <= phaseVariance (currentState
         (transact stranger (ExecuteLatticeScript "x" 5) genesis)) /\
  phaseVariance (currentState
         (transact stranger (ExecuteLatticeScript "x" 5) genesis)) < 2000000.
Proof.
  apply (phase_variance_bounded
           (transact stranger (ExecuteLatticeScript "x" 5) genesis)).
  apply reachable_transact, reachable_deployed.
Defined.

(** ** The evolution counter *)

Lemma transact_evolution_count_le (env : Env) (call : Call) (c : Contract) :
  evolutionCount (currentState c)
    <= evolutionCount (currentState (transact env call c)).
Proof.
  rewrite transact_currentState.
  destruct call as [who|content effect|hash|hash|]; try reflexivity.
  - destruct (succeeds _); [cbn; lia | reflexivity].
  - destruct (succeeds _); reflexivity.
Qed.

(** C5: evolution_count never decreases, whatever the call, and every
    executeLatticeScript that completes (and so every completed
    _updateLatticeState) increases it by exactly 1. *)
Theorem evolution_count_monotonic (env : Env) (call : Call) (c : Contract) :
  evolutionCount (currentState c)
    <= evolutionCount (currentState (transact env call c)) /\
  (forall content effect,
     call = ExecuteLatticeScript content effect ->
     succeeds (executeLatticeScript env content effect c) = true ->
     evolutionCount (currentState (transact env call c))
       = evolutionCount (currentState c) + 1).
Proof.
  split; [apply transact_evolution_count_le|].
  intros content effect -> Hok. now rewrite transact_currentState, Hok.
Qed.

Lemma evolution_count_monotonic_witness :
  evolutionCount (currentState
     (transact stranger (ExecuteLatticeScript "x" 5) genesis))
  = evolutionCount (currentState genesis) + 1.
Proof.
  apply (proj2 (evolution_count_monotonic stranger
                  (ExecuteLatticeScript "x" 5) genesis) "x"%string 5).
  - reflexivity.
  - vm_compute. reflexivity.
Defined.

Lemma evolution_count_run_monotone (txs : list (Env * Call)) (c : Contract) :
  evolutionCount (currentState c) <= evolutionCount (currentState (run c txs)).
Proof.
  revert c. induction txs as [|[env call] rest IH]; intros c; cbn.
  - reflexivity.
  - etransitivity; [|apply IH]. apply transact_evolution_count_le.
Qed.

(** ** Setting the consensus lock *)

Lemma logs_confirm env hash c :
  logs env (ConfirmCommitment hash) c =
    match confirmCommitment env hash c with
    | Success (_, _, events) => events
    | _ => []
    end.
Proof. reflexivity. Qed.

(** C6: a confirmCommitment that succeeds leaves consensus_locked true; when
    the lock was already set it changes nothing in the lattice state and
    emits no event, and the ConsensusAchieved event is emitted exactly on the
    transition from false to true. *)
Theorem confirm_lock_idempotent (env : Env) (hash : N) (c : Contract) :
  succeeds (confirmCommitment env hash c) = true ->
  consensusLocked (currentState (transact env (ConfirmCommitment hash) c)) = true /\
  if consensusLocked (currentState c)
  then currentState (transact env (ConfirmCommitment hash) c) = currentState c /\
       logs env (ConfirmCommitment hash) c = []
  else logs env (ConfirmCommitment hash) c =
         [ConsensusAchieved (stateHash (currentState c)) (block_timestamp env)].
Proof.
  intros Hok. rewrite transact_currentState, logs_confirm, Hok.
  apply succeeds_inv in Hok as [[[u c'] ev] Hok]. rewrite Hok.
  apply confirmCommitment_inv in Hok as (_ & _ & _ & _ & ->).
  split; [reflexivity|].
  destruct (currentState c) as [ec pv sh ts []]; cbn; auto.
Qed.

Lemma confirm_lock_idempotent_witness :
  consensusLocked (currentState
     (transact deployer (ConfirmCommitment 7) committed)) = true /\
  logs deployer (ConfirmCommitment 7) committed =
    [ConsensusAchieved (stateHash (currentState committed))
                       (block_timestamp deployer)].
Proof.
  apply (confirm_lock_idempotent deployer 7 committed).
  vm_compute. reflexivity.
Defined.

(** A second commitment confirmed while the lock is set: no event. *)
Example confirm_while_locked :
  let c := transact deployer (MakeCommitment 8) locked in
  consensusLocked (currentState c) = true /\
  succeeds (confirmCommitment deployer 8 c) = true /\
  logs deployer (ConfirmCommitment 8) c = [] /\
  currentState (transact deployer (ConfirmCommitment 8) c) = currentState c.
Proof. vm_compute. repeat split. Qed.

(** ** The lock and state updates *)

(** C1, as the contract has it: the lock does not freeze the lattice state.
    On a locked state an executeLatticeScript within the arithmetic bounds
    completes, increments evolution_count by 1, recomputes phase_variance
    and state_hash and clears consensus_locked; every other call leaves a
    locked lattice state as it is. *)
Theorem locked_state_still_updates
    (env : Env) (content : string) (effect : N) (c : Contract) :
  consensusLocked (currentState c) = true ->
  execute_fits c content effect ->
  let c' := transact env (ExecuteLatticeScript content effect) c in
  let variance :=
    (phaseVariance (currentState c) + effect * 1618034 / 1000000) mod 2000000 in
  succeeds (executeLatticeScript env content effect c) = true /\
  evolutionCount (currentState c') = evolutionCount (currentState c) + 1 /\
  phaseVariance (currentState c') = variance /\
  stateHash (currentState c') =
    keccak256 (encodePacked [evolutionCount (currentState c) + 1; variance;
                             block_timestamp env; block_difficulty env]) /\
  consensusLocked (currentState c') = false /\
  (forall call,
     match call with
     | ExecuteLatticeScript _ _ => True
     | _ => currentState (transact env call c) = currentState c
     end).
Proof.
  intros Hlock Hfit c' variance. subst c' variance.
  destruct (executeLatticeScript_success env content effect c Hfit)
    as (c' & ev & Hok).
  rewrite transact_currentState, Hok. cbn. repeat split.
  intros call. rewrite transact_currentState.
  destruct call as [who|content' effect'|hash|hash|]; auto.
  destruct (succeeds _); auto.
  destruct (currentState c) as [ec pv sh ts lk]; cbn in *. now subst lk.
Qed.

Lemma scenario_execute_fits (c : Contract) :
  evolutionCount (currentState c) <= 1000 ->
  phaseVariance (currentState c) < 2000000 ->
  executionCount (script_at c (script_hash_of "x")) <= 1000 ->
  execute_fits c "x" 5.
Proof.
  unfold execute_fits, update_fits, MAX_UINT256. intros H1 H2 H3.
  assert (2000000 + 5 * 1618034 < 2 ^ 256 - 1) by (vm_compute; reflexivity).
  assert (5 * 1618034 / 1000000 <= 5 * 1618034) by (vm_compute; discriminate).
  lia.
Qed.

Lemma locked_state_still_updates_witness :
  consensusLocked (currentState locked) = true /\
  evolutionCount (currentState
     (transact stranger (ExecuteLatticeScript "x" 5) locked)) = 0 + 1 /\
  consensusLocked (currentState
     (transact stranger (ExecuteLatticeScript "x" 5) locked)) = false.
Proof.
  assert (consensusLocked (currentState locked) = true) as Hlock
    by (vm_compute; reflexivity).
  assert (execute_fits locked "x" 5) as Hfit
    by (apply scenario_execute_fits; vm_compute; (discriminate || reflexivity)).
  pose proof (locked_state_still_updates stranger "x" 5 locked Hlock Hfit)
    as (_ & Hcount & _ & _ & Hclear & _).
  split; [exact Hlock|]. split; [exact Hcount | exact Hclear].
Defined.

(** C1 as stated fails: a state update on a locked contract changes
    evolution_count, phase_variance and state_hash, and clears the lock. *)
Lemma locked_state_changes :
  let c' := transact stranger (ExecuteLatticeScript "x" 5) locked in
  consensusLocked (currentState locked) = true /\
  evolutionCount (currentState locked) = 0 /\
  evolutionCount (currentState c') = 1 /\
  phaseVariance (currentState locked) = 1123580 /\
  phaseVariance (currentState c') = 1123588 /\
  stateHash (currentState c') <> stateHash (currentState locked) /\
  consensusLocked (currentState c') = false.
Proof. vm_compute. repeat split. discriminate. Qed.

(** ** Who may call what *)

(** C10: a sender that is not an authorized validator cannot make or confirm
    a commitment nor authorize a validator: each of these calls reverts and
    the storage stays as it was.  executeLatticeScript has no such check:
    from the same sender it completes (within the arithmetic bounds), changes
    the lattice state and clears the consensus lock. *)
Theorem authorization_asymmetric
    (env : Env) (c : Contract) (hash who : N) (content : string) (effect : N) :
  is_authorized c (msg_sender env) = false ->
  execute_fits c content effect ->
  (makeCommitment env hash c = Revert "Not authorized validator" /\
   transact env (MakeCommitment hash) c = c) /\
  (confirmCommitment env hash c = Revert "Not authorized validator" /\
   transact env (ConfirmCommitment hash) c = c) /\
  (authorizeValidator env who c = Revert "Not authorized validator" /\
   transact env (AuthorizeValidator who) c = c) /\
  (succeeds (executeLatticeScript env content effect c) = true /\
   currentState (transact env (ExecuteLatticeScript content effect) c)
     <> currentState c /\
   consensusLocked
     (currentState (transact env (ExecuteLatticeScript content effect) c)) = false).
Proof.
  intros Hauth Hfit.
  assert (makeCommitment env hash c = Revert "Not authorized validator") as Hmake
    by (apply guarded_unauthorized, Hauth).
  assert (confirmCommitment env hash c = Revert "Not authorized validator") as Hconf
    by (apply guarded_unauthorized, Hauth).
  assert (authorizeValidator env who c = Revert "Not authorized validator") as Hadd
    by (apply guarded_unauthorized, Hauth).
  repeat split; auto.
  - unfold transact, dispatch. now rewrite Hmake.
  - unfold transact, dispatch. now rewrite Hconf.
  - unfold transact, dispatch. now rewrite Hadd.
  - destruct (executeLatticeScript_success env content effect c Hfit)
      as (c' & ev & ->). reflexivity.
  - destruct (executeLatticeScript_success env content effect c Hfit)
      as (c' & ev & Hok).
    rewrite transact_currentState, Hok. cbn [succeeds]. intros Heq.
    apply (f_equal evolutionCount) in Heq. cbn in Heq. lia.
  - destruct (executeLatticeScript_success env content effect c Hfit)
      as (c' & ev & Hok).
    rewrite transact_currentState, Hok. reflexivity.
Qed.

Lemma authorization_asymmetric_witness :
  makeCommitment stranger 9 locked = Revert "Not authorized validator" /\
  confirmCommitment stranger 7 locked = Revert "Not authorized validator" /\
  authorizeValidator stranger 2 locked = Revert "Not authorized validator" /\
  consensusLocked (currentState
    (transact stranger (ExecuteLatticeScript "x" 5) locked)) = false.
Proof.
  assert (is_authorized locked (msg_sender stranger) = false) as Hauth
    by (vm_compute; reflexivity).
  assert (execute_fits locked "x" 5) as Hfit
    by (apply scenario_execute_fits; vm_compute; (discriminate || reflexivity)).
  pose proof (authorization_asymmetric stranger locked 9 2 "x" 5 Hauth Hfit)
    as ((Hmake & _) & _ & (Hadd & _) & (_ & _ & Hclear)).
  pose proof (authorization_asymmetric stranger locked 7 2 "x" 5 Hauth Hfit)
    as (_ & (Hconf & _) & _).
  repeat split; assumption.
Defined.

(** ** Resubmitting a confirmed digest *)

Lemma commitment_at_set hash m c h :
  commitment_at (set_commitment hash m c) h =
    if bool_decide (hash = h) then m else commitment_at c h.
Proof.
  unfold commitment_at, set_commitment. cbn [commitments].
  case_bool_decide as Heq.
  - subst h. now rewrite lookup_insert_eq.
  - now rewrite lookup_insert_ne.
Qed.

(** What each kind of call does to the table of commitments. *)
Lemma transact_commitment_at env call c h :
  commitment_at (transact env call c) h =
    match call with
    | MakeCommitment hash =>
        if succeeds (makeCommitment env hash c) && bool_decide (hash = h)
        then mkCommitment hash (block_number env) (msg_sender env)
                          (block_timestamp env) false
        else commitment_at c h
    | ConfirmCommitment hash =>
        if succeeds (confirmCommitment env hash c) && bool_decide (hash = h)
        then mkCommitment (commitmentHash (commitment_at c h))
               (blockHeight (commitment_at c h)) (validator (commitment_at c h))
               (commitment_timestamp (commitment_at c h)) true
        else commitment_at c h
    | _ => commitment_at c h
    end.
Proof.
  destruct call as [who|content effect|hash|hash|].
  - unfold transact, dispatch.
    destruct (authorizeValidator env who c) as [[[u c'] ev]| |] eqn:E; auto.
    apply authorizeValidator_inv in E as (_ & -> & _). reflexivity.
  - rewrite transact_execute.
    destruct (executeLatticeScript env content effect c) as [[[u c'] ev]| |] eqn:E;
      auto.
    apply executeLatticeScript_inv in E as (_ & _ & _ & E & _).
    unfold commitment_at. now rewrite E.
  - unfold transact, dispatch.
    destruct (makeCommitment env hash c) as [[[u c'] ev]| |] eqn:E; auto.
    apply makeCommitment_inv in E as (_ & _ & -> & _).
    cbn [succeeds andb]. unfold push_commitmentHash, commitment_at at 1.
    cbn [commitments]. fold (commitment_at
      (set_commitment hash (mkCommitment hash (block_number env) (msg_sender env)
                              (block_timestamp env) false) c) h).
    rewrite commitment_at_set. reflexivity.
  - unfold transact, dispatch.
    destruct (confirmCommitment env hash c) as [[[u c'] ev]| |] eqn:E; auto.
    apply confirmCommitment_inv in E as (_ & _ & _ & -> & _).
    cbn [succeeds andb]. unfold confirmed_storage.
    assert (forall st d, commitment_at (set_currentState st d) h = commitment_at d h)
      as Hset by reflexivity.
    destruct (consensusLocked (currentState c)); rewrite ?Hset, commitment_at_set;
      case_bool_decide; subst; reflexivity.
  - unfold transact, dispatch, emergencyPause. rewrite onlyAuthorized_eq.
    destruct (is_authorized c (msg_sender env)); reflexivity.
Qed.

(** Only an existing commitment is ever confirmed. *)
Lemma confirmed_has_validator (c : Contract) :
  reachable c ->
  forall h, confirmed (commitment_at c h) = true -> validator (commitment_at c h) <> 0.
Proof.
  induction 1 as [env|env call c Hreach IH]; intros h.
  - cbn. discriminate.
  - rewrite transact_commitment_at.
    destruct call as [who|content effect|hash|hash|]; auto.
    + destruct (succeeds _ && bool_decide _); [cbn; discriminate | auto].
    + destruct (succeeds (confirmCommitment env hash c)) eqn:Hok; cbn [andb]; auto.
      case_bool_decide; auto. subst hash. cbn. intros _.
      apply succeeds_inv in Hok as [[[u c'] ev] Hok].
      now apply confirmCommitment_inv in Hok.
Qed.

(** C2, as the contract has it: resubmitting a digest that is already
    confirmed is rejected.  makeCommitment and confirmCommitment both revert
    (for an authorized validator with "Commitment already exists" and
    "Already confirmed"), the storage stays as it was, and so the commitment
    stays confirmed. *)
Theorem resubmission_reverts (c : Contract) (env : Env) (hash : N) :
  reachable c ->
  confirmed (commitment_at c hash) = true ->
  succeeds (makeCommitment env hash c) = false /\
  succeeds (confirmCommitment env hash c) = false /\
  (is_authorized c (msg_sender env) = true ->
   makeCommitment env hash c = Revert "Commitment already exists" /\
   confirmCommitment env hash c = Revert "Already confirmed") /\
  transact env (MakeCommitment hash) c = c /\
  transact env (ConfirmCommitment hash) c = c /\
  confirmed (commitment_at (transact env (ConfirmCommitment hash)
                              (transact env (MakeCommitment hash) c)) hash) = true.
Proof.
  intros Hreach Hconf.
  pose proof (confirmed_has_validator c Hreach hash Hconf) as Hval.
  assert (succeeds (makeCommitment env hash c) = false) as Hmake.
  { destruct (makeCommitment env hash c) as [[[u c'] ev]| |] eqn:E; auto.
    apply makeCommitment_inv in E as (_ & E & _). contradiction. }
  assert (succeeds (confirmCommitment env hash c) = false) as Hagain.
  { destruct (confirmCommitment env hash c) as [[[u c'] ev]| |] eqn:E; auto.
    apply confirmCommitment_inv in E as (_ & _ & E & _). congruence. }
  assert (transact env (MakeCommitment hash) c = c) as Hsame1.
  { unfold transact, dispatch.
    destruct (makeCommitment env hash c) as [[[u c'] ev]| |]; auto; discriminate. }
  assert (transact env (ConfirmCommitment hash) c = c) as Hsame2.
  { unfold transact, dispatch.
    destruct (confirmCommitment env hash c) as [[[u c'] ev]| |]; auto; discriminate. }
  repeat split; auto.
  - unfold makeCommitment. rewrite guarded_authorized by assumption. tx_unfold.
    apply N.eqb_neq in Hval. now rewrite Hval.
  - unfold confirmCommitment. rewrite guarded_authorized by assumption. tx_unfold.
    apply N.eqb_neq in Hval. now rewrite Hval, Hconf.
  - now rewrite Hsame1, Hsame2.
Qed.

Lemma locked_reachable : reachable locked.
Proof. do 2 apply reachable_transact. apply reachable_deployed. Qed.

Lemma resubmission_reverts_witness :
  confirmed (commitment_at locked 7) = true /\
  succeeds (makeCommitment deployer 7 locked) = false /\
  succeeds (confirmCommitment deployer 7 locked) = false.
Proof.
  assert (confirmed (commitment_at locked 7) = true) as Hconf
    by (vm_compute; reflexivity).
  pose proof (resubmission_reverts locked deployer 7 locked_reachable Hconf)
    as (Hmake & Hagain & _).
  repeat split; assumption.
Defined.

(** C2 as stated fails: the deployer commits digest 7 and confirms it; the
    same validator resubmitting digest 7 gets an error from both calls. *)
Lemma resubmission_is_an_error :
  is_authorized locked (msg_sender deployer) = true /\
  confirmed (commitment_at locked 7) = true /\
  makeCommitment deployer 7 locked = Revert "Commitment already exists" /\
  confirmCommitment deployer 7 locked = Revert "Already confirmed".
Proof. vm_compute. repeat split. Qed.

(** ** What the state hash depends on *)

(** C3, as the contract has it: the state hash is a function of
    evolution_count, phase_variance and the timestamp and difficulty of the
    block.  Two runs of script executions that start from lattice states with
    the same evolution_count, phase_variance and state_hash and carry the same
    effects in blocks with the same timestamps and difficulties end with the
    same state_hash (and counter and variance); senders, script contents,
    block numbers, the lock and the rest of the storage play no part. *)
Theorem state_hash_determined
    (l1 l2 : list (Env * string * N)) (c1 c2 : Contract) :
  same_lattice (currentState c1) (currentState c2) ->
  Forall2 same_update l1 l2 ->
  completes c1 (scripts l1) = true ->
  completes c2 (scripts l2) = true ->
  stateHash (currentState (run c1 (scripts l1)))
    = stateHash (currentState (run c2 (scripts l2))) /\
  same_lattice (currentState (run c1 (scripts l1)))
               (currentState (run c2 (scripts l2))).
Proof.
  intros Hstart Hsame.
  enough (completes c1 (scripts l1) = true -> completes c2 (scripts l2) = true ->
          same_lattice (currentState (run c1 (scripts l1)))
                       (currentState (run c2 (scripts l2)))) as Hgoal.
  { intros H1 H2. split; [apply (Hgoal H1 H2) | exact (Hgoal H1 H2)]. }
  revert c1 c2 Hstart.
  induction Hsame as [|[[e1 s1] x1] [[e2 s2] x2] l1 l2 (Hx & Hts & Hdiff) _ IH];
    intros c1 c2 Hstart Hrun1 Hrun2.
  - exact Hstart.
  - cbn in Hx, Hts, Hdiff. subst x2. cbn in Hrun1, Hrun2 |- *.
    apply andb_prop in Hrun1 as [Hok1 Hrun1], Hrun2 as [Hok2 Hrun2].
    rewrite succeeds_erase in Hok1, Hok2.
    apply IH; auto.
    rewrite !transact_currentState, Hok1, Hok2.
    destruct Hstart as (Hec & Hpv & _).
    unfold same_lattice, updated_state. cbn. now rewrite Hec, Hpv, Hts, Hdiff.
Qed.

Lemma state_hash_determined_witness :
  stateHash (currentState
     (run genesis (scripts [(deployer, "x"%string, 5); (later, "y"%string, 6)])))
  = stateHash (currentState
     (run locked (scripts [(mkEnv 2 1000 12 7, "z"%string, 5);
                           (mkEnv 3 1001 13 7, "x"%string, 6)]))).
Proof.
  apply (state_hash_determined
           [(deployer, "x"%string, 5); (later, "y"%string, 6)]
           [(mkEnv 2 1000 12 7, "z"%string, 5); (mkEnv 3 1001 13 7, "x"%string, 6)]
           genesis locked).
  - vm_compute. repeat split.
  - repeat constructor.
  - vm_compute. reflexivity.
  - vm_compute. reflexivity.
Defined.

(** C3 as stated fails: from the same state, the same update computes
    the same evolution_count and phase_variance but another state_hash when
    only the block timestamp differs. *)
Lemma state_hash_depends_on_block_time :
  let a := currentState (transact deployer (ExecuteLatticeScript "x" 5) genesis) in
  let b := currentState (transact later (ExecuteLatticeScript "x" 5) genesis) in
  evolutionCount a = evolutionCount b /\
  phaseVariance a = phaseVariance b /\
  stateHash a <> stateHash b.
Proof. vm_compute. repeat split. discriminate. Qed.

(** ** The script registry *)

Lemma script_at_set hash m c h :
  script_at (set_script hash m c) h =
    if bool_decide (hash = h) then m else script_at c h.
Proof.
  unfold script_at, set_script. cbn [latticeScripts].
  case_bool_decide as Heq.
  - subst h. now rewrite lookup_insert_eq.
  - now rewrite lookup_insert_ne.
Qed.

Lemma script_at_insert hash m c c' h :
  latticeScripts c' = <[hash := m]> (latticeScripts c) ->
  script_at c' h = if bool_decide (hash = h) then m else script_at c h.
Proof.
  intros E. rewrite <- script_at_set. unfold script_at. now rewrite E.
Qed.

(** Calls other than executeLatticeScript leave the registry alone. *)
Lemma transact_registry env call c :
  (forall content effect, call <> ExecuteLatticeScript content effect) ->
  scriptHashes (transact env call c) = scriptHashes c /\
  latticeScripts (transact env call c) = latticeScripts c.
Proof.
  intros Hcall. destruct call as [who|content effect|hash|hash|].
  - unfold transact, dispatch.
    destruct (authorizeValidator env who c) as [[[u c'] ev]| |] eqn:E; auto.
    apply authorizeValidator_inv in E as (_ & -> & _). auto.
  - now destruct (Hcall content effect).
  - unfold transact, dispatch.
    destruct (makeCommitment env hash c) as [[[u c'] ev]| |] eqn:E; auto.
    apply makeCommitment_inv in E as (_ & _ & -> & _). auto.
  - unfold transact, dispatch.
    destruct (confirmCommitment env hash c) as [[[u c'] ev]| |] eqn:E; auto.
    apply confirmCommitment_inv in E as (_ & _ & _ & -> & _).
    unfold confirmed_storage. destruct (consensusLocked (currentState c)); auto.
  - unfold transact, dispatch, emergencyPause. rewrite onlyAuthorized_eq.
    destruct (is_authorized c (msg_sender env)); auto.
Qed.

Lemma registry_ok_deployed env : registry_ok (constructor env).1.
Proof.
  split; cbn.
  - constructor.
  - intros h. unfold script_at. cbn. rewrite lookup_empty. cbn.
    split; [intros H; inversion H | congruence].
Qed.

Lemma registry_ok_execute env content effect c h c' events :
  registry_ok c ->
  executeLatticeScript env content effect c = Success (h, c', events) ->
  registry_ok c' /\
  (forall k, k ∈ scriptHashes c' <-> k ∈ scriptHashes c \/ k = h).
Proof.
  intros [Hnodup Hlisted] Hok.
  apply executeLatticeScript_inv in Hok
    as (-> & _ & _ & _ & _ & _ & [(Hnew & Hlist & Hmap)|(Hold & _ & Hlist & Hmap)]).
  - assert (script_hash_of content ∉ scriptHashes c) as Hfresh
      by (rewrite Hlisted; tauto).
    split; [split|].
    + rewrite Hlist. apply NoDup_app.
      split; [exact Hnodup | split; [|apply NoDup_singleton]].
      intros k Hk Hk'. apply list_elem_of_singleton in Hk'. now subst k.
    + intros k. rewrite Hlist, (script_at_insert _ _ _ _ _ Hmap), elem_of_app,
        list_elem_of_singleton.
      case_bool_decide as Hk; cbn.
      * split; [intros _; apply script_hash_nonempty | intros _; right; now symmetry].
      * rewrite Hlisted. intuition congruence.
    + intros k. now rewrite Hlist, elem_of_app, list_elem_of_singleton.
  - assert (script_hash_of content ∈ scriptHashes c) as Hin by now apply Hlisted.
    split; [split|].
    + now rewrite Hlist.
    + intros k. rewrite Hlist, (script_at_insert _ _ _ _ _ Hmap).
      case_bool_decide as Hk; cbn.
      * subst k. tauto.
      * apply Hlisted.
    + intros k. rewrite Hlist. split; [auto|]. intros [Hk| ->]; auto.
Qed.

Lemma registry_ok_transact env call c :
  registry_ok c -> registry_ok (transact env call c).
Proof.
  intros Hok. destruct call as [who|content effect|hash|hash|].
  2: { rewrite transact_execute.
       destruct (executeLatticeScript env content effect c) as [[[h c'] ev]| |] eqn:E;
         auto.
       now apply (registry_ok_execute _ _ _ _ _ _ _ Hok E). }
  all: match goal with |- registry_ok (transact _ ?call _) =>
         destruct (transact_registry env call c) as [Hlist Hmap]; [discriminate|]
       end.
  all: destruct Hok as [Hnodup Hlisted]; split; [now rewrite Hlist|].
  all: intros h; rewrite Hlist; unfold script_at; rewrite Hmap; apply Hlisted.
Qed.

Lemma registry_ok_run txs c : registry_ok c -> registry_ok (run c txs).
Proof.
  revert c. induction txs as [|[env call] rest IH]; intros c Hok; cbn; auto.
  apply IH, registry_ok_transact, Hok.
Qed.

(** The registry lists exactly the hashes it started with and those of the
    script executions that went through. *)
Lemma registry_lists_submitted txs c h :
  registry_ok c ->
  h ∈ scriptHashes (run c txs) <-> h ∈ scriptHashes c \/ h ∈ submitted c txs.
Proof.
  revert c. induction txs as [|[env call] rest IH]; intros c Hok; cbn.
  - split; [auto|]. intros [H|H]; [exact H | inversion H].
  - rewrite IH by apply registry_ok_transact, Hok. rewrite elem_of_app.
    destruct call as [who|content effect|hash|hash|].
    2: { rewrite transact_execute. unfold dispatch. rewrite succeeds_erase.
         destruct (executeLatticeScript env content effect c)
           as [[[k c'] ev]| |] eqn:E; cbn [succeeds].
         - destruct (registry_ok_execute _ _ _ _ _ _ _ Hok E) as [_ Hk].
           pose proof (executeLatticeScript_inv _ _ _ _ _ _ _ E) as (-> & _).
           rewrite Hk, list_elem_of_singleton. unfold script_hash_of. tauto.
         - rewrite elem_of_nil. tauto.
         - rewrite elem_of_nil. tauto. }
    all: match goal with |- context [transact _ ?call _] =>
           destruct (transact_registry env call c) as [-> _]; [discriminate|]
         end.
    all: rewrite elem_of_nil; tauto.
Qed.

(** C9: in every run from deployment the registry holds no hash twice and
    getScriptCount is the number of distinct script hashes submitted;
    submitting content whose hash is registered leaves scriptHashes as it is,
    increments that script's executionCount by exactly 1 and stores the new
    latticeEffect and timestamp. *)
Theorem script_registry_no_duplicates (deploy : Env) (txs : list (Env * Call)) :
  let c := run (constructor deploy).1 txs in
  NoDup (scriptHashes c) /\
  getScriptCount c = length (remove_dups (submitted (constructor deploy).1 txs)) /\
  (forall env content effect,
     script_hash_of content ∈ scriptHashes c ->
     succeeds (executeLatticeScript env content effect c) = true ->
     let c' := transact env (ExecuteLatticeScript content effect) c in
     let h := script_hash_of content in
     scriptHashes c' = scriptHashes c /\
     getScriptCount c' = getScriptCount c /\
     executionCount (script_at c' h) = executionCount (script_at c h) + 1 /\
     latticeEffect (script_at c' h) = effect /\
     script_timestamp (script_at c' h) = block_timestamp env).
Proof.
  intros c.
  pose proof (registry_ok_run txs _ (registry_ok_deployed deploy))
    as [Hnodup Hlisted]. fold c in Hnodup, Hlisted.
  split; [exact Hnodup|]. split.
  - unfold getScriptCount. apply Permutation_length, NoDup_Permutation.
    + exact Hnodup.
    + apply NoDup_remove_dups.
    + intros h. rewrite elem_of_remove_dups. subst c.
      rewrite registry_lists_submitted by apply registry_ok_deployed.
      cbn. rewrite elem_of_nil. tauto.
  - intros env content effect Hin Hok c' h. subst c'.
    rewrite transact_execute.
    apply succeeds_inv in Hok as [[[k c'] ev] Hok]. rewrite Hok.
    apply executeLatticeScript_inv in Hok
      as (-> & _ & _ & _ & _ & _ & [(Hnew & _)|(_ & _ & Hlist & Hmap)]).
    + apply Hlisted in Hin. contradiction.
    + unfold getScriptCount. rewrite Hlist. subst h.
      rewrite (script_at_insert _ _ _ _ _ Hmap), bool_decide_eq_true_2 by reflexivity.
      cbn. auto.
Qed.

Lemma script_registry_no_duplicates_witness :
  let c := run (constructor deployer).1
             [(deployer, ExecuteLatticeScript "x" 5);
              (stranger, ExecuteLatticeScript "y" 6);
              (later, ExecuteLatticeScript "x" 7)] in
  getScriptCount c = 2%nat /\
  scriptHashes (transact stranger (ExecuteLatticeScript "y" 8) c) = scriptHashes c /\
  executionCount (script_at (transact stranger (ExecuteLatticeScript "y" 8) c)
                            (script_hash_of "y")) = 1 + 1.
Proof.
  intros c.
  pose proof (script_registry_no_duplicates deployer
                [(deployer, ExecuteLatticeScript "x" 5);
                 (stranger, ExecuteLatticeScript "y" 6);
                 (later, ExecuteLatticeScript "x" 7)])
    as (_ & Hcount & Hagain).
  fold c in Hcount, Hagain. split.
  - rewrite Hcount. vm_compute. reflexivity.
  - assert (script_hash_of "y" ∈ scriptHashes c) as Hin
      by (vm_compute; apply list_elem_of_further, list_elem_of_here).
    assert (succeeds (executeLatticeScript stranger "y" 8 c) = true) as Hok
      by (vm_compute; reflexivity).
    destruct (Hagain stranger "y"%string 8 Hin Hok) as (Hlist & _ & Hexec & _).
    split; [exact Hlist|]. rewrite Hexec. vm_compute. reflexivity.
Defined.

End LedgerFacts.

(** * Properties of the servers *)
Section ServerFacts.
Import JS Visualizer Stats.

#[local] Opaque MAX_HISTORY.

Lemma MAX_HISTORY_pos : (0 < MAX_HISTORY)%nat.
Proof. vm_compute. lia. Qed.

(** ** The visualizer's read path *)

(** Whatever the malformed text is, a read on a writable disk replaces it by
    the default state and hands the default state to the caller. *)
Lemma readLatticeState_malformed (raw : string) :
  readLatticeState (mkDisk (Some (Malformed raw)) true) =
    (defaultState, mkDisk (Some (Parses defaultState)) true,
     ["Error reading state:"%string]).
Proof. reflexivity. Qed.

(** The sibling path: when the default cannot be written the file is left as
    it is and the caller is told. *)
Lemma readLatticeState_unwritable (raw : string) :
  readLatticeState (mkDisk (Some (Malformed raw)) false) =
    (JNull, mkDisk (Some (Malformed raw)) false,
     ["Error reading state:"%string; "Error writing default state:"%string]) /\
  status (api_state (mkDisk (Some (Malformed raw)) false)).1 = 500%nat.
Proof. split; reflexivity. Qed.

(** A file that parses is returned as it is and never written. *)
Lemma readLatticeState_parses (v : jsval) (w : bool) :
  readLatticeState (mkDisk (Some (Parses v)) w) = (v, mkDisk (Some (Parses v)) w, []).
Proof. reflexivity. Qed.

(** C4 on the code: with the file holding the malformed text [{not json], a
    read overwrites the file with the default state and returns the default
    state, and /api/state answers 200 with it: the stored text is replaced
    and no error reaches the caller. *)
Theorem corrupted_state_file_is_replaced :
  let d := mkDisk (Some (Malformed "{not json")) true in
  (readLatticeState d).1.1 = defaultState /\
  state_json (readLatticeState d).1.2 = Some (Parses defaultState) /\
  state_json (readLatticeState d).1.2 <> state_json d /\
  api_state d = (mkResponse 200 defaultState, mkDisk (Some (Parses defaultState)) true).
Proof. cbn. repeat split. discriminate. Qed.

(** ** The stats server's history *)

Lemma record_metrics_eq (metrics : jsval) (history : list jsval) :
  record_metrics metrics history =
    if (length history <? MAX_HISTORY)%nat then history ++ [metrics]
    else drop 1 (history ++ [metrics]).
Proof.
  unfold record_metrics. rewrite length_app. cbn [length].
  destruct (Nat.ltb_spec MAX_HISTORY (length history + 1));
    destruct (Nat.ltb_spec (length history) MAX_HISTORY); try lia; reflexivity.
Qed.

Lemma record_metrics_length (metrics : jsval) (history : list jsval) :
  (length history <= MAX_HISTORY)%nat ->
  (length (record_metrics metrics history) <= MAX_HISTORY)%nat.
Proof.
  intros Hlen. rewrite record_metrics_eq.
  destruct (Nat.ltb_spec (length history) MAX_HISTORY).
  - rewrite length_app. cbn. lia.
  - rewrite length_drop, length_app. cbn. lia.
Qed.

Lemma tick_inv file now history history' metrics :
  tick file now history = Some (history', metrics) ->
  set_property (getHDGLMetrics file) "timestamp" (JNum now) = Some metrics /\
  history' = record_metrics metrics history.
Proof.
  unfold tick. destruct (set_property _ _ _); [|discriminate].
  intros [= <- <-]. auto.
Qed.

(** A run of ticks keeps the last [MAX_HISTORY] of the entries it saw. *)
Lemma ticks_keep_latest inputs start history :
  (length start <= MAX_HISTORY)%nat ->
  ticks inputs start = Some history ->
  (length history <= MAX_HISTORY)%nat /\
  history = drop (length (start ++ recorded inputs) - MAX_HISTORY)
                 (start ++ recorded inputs).
Proof.
  revert start. induction inputs as [|[file now] rest IH]; intros start Hlen; cbn.
  - intros [= <-]. split; [exact Hlen|].
    rewrite app_nil_r. replace (length start - MAX_HISTORY)%nat with 0%nat by lia.
    reflexivity.
  - destruct (tick file now start) as [[next metrics]|] eqn:Htick; [|discriminate].
    apply tick_inv in Htick as [-> ->]. intros Hrun.
    apply IH in Hrun as [Hbound ->]; [|now apply record_metrics_length].
    split; [exact Hbound|]. rewrite record_metrics_eq.
    destruct (Nat.ltb_spec (length start) MAX_HISTORY).
    + now rewrite <- app_assoc.
    + rewrite <- drop_app_le by (rewrite length_app; cbn; lia).
      rewrite <- app_assoc. cbn [app]. rewrite drop_drop. f_equal.
      rewrite length_drop, !length_app. cbn [length]. lia.
Qed.

(** C8: after any series of ticks the history holds at most MAX_HISTORY
    entries, namely the latest of the recorded entries in the order they were
    recorded; a further tick appends its entry and, when the history is full,
    drops exactly the oldest one. *)
Theorem metrics_history_bounded
    (inputs : list (option file_text * Z)) (history : list jsval) :
  ticks inputs [] = Some history ->
  (length history <= MAX_HISTORY)%nat /\
  history = drop (length (recorded inputs) - MAX_HISTORY) (recorded inputs) /\
  (forall file now history' metrics,
     tick file now history = Some (history', metrics) ->
     (length history' <= MAX_HISTORY)%nat /\
     history' = (if (length history <? MAX_HISTORY)%nat then history
                 else drop 1 history) ++ [metrics]).
Proof.
  intros Hrun.
  apply ticks_keep_latest in Hrun as [Hbound Hlatest]; [|cbn; lia].
  split; [exact Hbound|]. split; [exact Hlatest|].
  intros file now history' metrics Htick.
  apply tick_inv in Htick as [_ ->].
  split; [now apply record_metrics_length|].
  rewrite record_metrics_eq.
  destruct (Nat.ltb_spec (length history) MAX_HISTORY); [reflexivity|].
  apply drop_app_le. pose proof MAX_HISTORY_pos. lia.
Qed.

Lemma metrics_history_bounded_witness :
  (length [JObj [("timestamp"%string, JNum 1)];
           JObj [("load"%string, JNum 3); ("timestamp"%string, JNum 2)]]
     <= MAX_HISTORY)%nat.
Proof.
  apply (metrics_history_bounded
           [(None, 1%Z);
            (Some (Parses (JObj [("load"%string, JNum 3)])), 2%Z)]
           [JObj [("timestamp"%string, JNum 1)];
            JObj [("load"%string, JNum 3); ("timestamp"%string, JNum 2)]]).
  vm_compute. reflexivity.
Defined.

End ServerFacts.

(** * Further properties of the ledger contract *)

(** ** The hex encoding of a hash *)
Section HexFacts.
Import Ledger.

Lemma hex_value_digit (n : N) : n < 16 -> hex_value (hex_digit n) = n.
Proof.
  intros Hn.
  assert (forall k, (k < 16)%nat -> hex_value (hex_digit (N.of_nat k)) = N.of_nat k)
    as Hall by (intros k Hk; do 16 (destruct k as [|k]; [reflexivity|]); lia).
  rewrite <- (N2Nat.id n). apply Hall. lia.
Qed.

Lemma hex_digit_in_alphabet (n : N) : n < 16 -> In (hex_digit n) alphabet.
Proof.
  intros Hn. unfold hex_digit. apply nth_In.
  change (length alphabet) with 16%nat. lia.
Qed.

Lemma byte_at_lt (data : N) (i : nat) : byte_at data i < 256.
Proof. unfold byte_at. apply N.mod_lt. discriminate. Qed.

Lemma high_nibble_lt (b : N) : b < 256 -> N.shiftr b 4 < 16.
Proof.
  intros Hb. rewrite N.shiftr_div_pow2. change (2 ^ 4) with 16.
  apply N.Div0.div_lt_upper_bound. lia.
Qed.

Lemma low_nibble_eq (b : N) : N.land b 0x0f = b mod 16.
Proof. change 0x0f with (N.ones 4). now rewrite N.land_ones. Qed.

Lemma nibbles_value (b : N) :
  b < 256 ->
  hex_value (hex_digit (N.shiftr b 4)) * 16 + hex_value (hex_digit (N.land b 0x0f)) = b.
Proof.
  intros Hb. rewrite !hex_value_digit.
  - rewrite low_nibble_eq, N.shiftr_div_pow2. change (2 ^ 4) with 16.
    rewrite (N.div_mod b 16) at 3 by discriminate. lia.
  - rewrite low_nibble_eq. apply N.mod_lt. discriminate.
  - now apply high_nibble_lt.
Qed.

(** Reading the first [k] bytes of a [bytes32], most significant first. *)
Lemma leading_bytes_value (data : N) (k : nat) :
  (k <= 32)%nat ->
  fold_left (fun acc i => acc * 256 + byte_at data i) (seq 0 k) 0
    = (data / 256 ^ N.of_nat (32 - k)) mod 256 ^ N.of_nat k.
Proof.
  induction k as [|k IH]; intros Hk.
  - cbn [seq fold_left]. now rewrite N.mod_1_r.
  - rewrite seq_S, fold_left_app, IH by lia. cbn [fold_left Nat.add].
    unfold byte_at.
    replace (32 - k)%nat with (S (31 - k)) by lia.
    replace (32 - S k)%nat with (31 - k)%nat by lia.
    rewrite !Nat2N.inj_succ, !N.pow_succ_r'.
    set (q := data / 256 ^ N.of_nat (31 - k)).
    replace (data / (256 * 256 ^ N.of_nat (31 - k))) with (q / 256)
      by (subst q; rewrite N.Div0.div_div; f_equal; lia).
    rewrite N.Div0.mod_mul_r. lia.
Qed.

Lemma fold_hex_pairs (data : N) (l : list nat) (acc : N) :
  fold_left (fun acc a => acc * 16 + hex_value a)
    (flat_map (fun i => [hex_digit (N.shiftr (byte_at data i) 4);
                         hex_digit (N.land (byte_at data i) 0x0f)]) l) acc
  = fold_left (fun acc i => acc * 256 + byte_at data i) l acc.
Proof.
  revert acc. induction l as [|i l IH]; intros acc; [reflexivity|].
  cbn [flat_map app fold_left]. rewrite IH. f_equal.
  pose proof (nibbles_value (byte_at data i) (byte_at_lt data i)). lia.
Qed.

Lemma fromHexString_toHexString (data : N) :
  fromHexString (toHexString data) = data mod 2 ^ 256.
Proof.
  unfold fromHexString, toHexString.
  rewrite list_ascii_of_string_of_list_ascii, fold_hex_pairs,
    leading_bytes_value by lia.
  cbn [Nat.sub N.of_nat]. rewrite N.pow_0_r, N.div_1_r. reflexivity.
Qed.

(** X1: the hex string of a hash is 64 characters from [0123456789abcdef],
    and two [bytes32] values with the same hex string are the same value. *)
Theorem toHexString_injective (a b : N) :
  a <= MAX_UINT256 -> b <= MAX_UINT256 ->
  String.length (toHexString a) = 64%nat /\
  Forall (fun ch => In ch alphabet) (list_ascii_of_string (toHexString a)) /\
  (toHexString a = toHexString b -> a = b).
Proof.
  intros Ha Hb. split; [apply toHexString_length|]. split.
  - unfold toHexString. rewrite list_ascii_of_string_of_list_ascii.
    apply List.Forall_forall. intros ch Hin.
    apply in_flat_map in Hin as (i & _ & Hin).
    destruct Hin as [<-|[<-|[]]]; apply hex_digit_in_alphabet.
    + apply high_nibble_lt, byte_at_lt.
    + rewrite low_nibble_eq. apply N.mod_lt. discriminate.
  - intros Heq. apply (f_equal fromHexString) in Heq.
    rewrite !fromHexString_toHexString in Heq.
    unfold MAX_UINT256 in Ha, Hb.
    rewrite !N.mod_small in Heq by lia. exact Heq.
Qed.

Lemma toHexString_injective_witness :
  String.length (toHexString 255) = 64%nat /\
  (toHexString 255 = toHexString 255 -> 255 = 255).
Proof.
  assert (255 <= MAX_UINT256) as Hle by (vm_compute; discriminate).
  destruct (toHexString_injective 255 255 Hle Hle) as (Hlen & _ & Hinj).
  split; [exact Hlen | exact Hinj].
Defined.

End HexFacts.

Section LedgerRuns.
Import Ledger Scenario.

#[local] Opaque keccak256 toHexString.

Ltac tx_open :=
  unfold mbind, Tx_mbind, tx_bind, mret, Tx_mret, tx_ret, storage, store, emit,
    require, checked_add, checked_mul, fail_panic in *.

(** ** Each call as a function of the storage *)

Lemma authorizeValidator_eq env who c :
  authorizeValidator env who c =
    if is_authorized c (msg_sender env)
    then Success (tt, set_authorized who c, [ValidatorAuthorized who])
    else Revert "Not authorized validator".
Proof.
  unfold authorizeValidator, onlyAuthorized. tx_open.
  destruct (is_authorized c (msg_sender env)); reflexivity.
Qed.

Lemma makeCommitment_eq env hash c :
  makeCommitment env hash c =
    if is_authorized c (msg_sender env) then
      if validator (commitment_at c hash) =? 0 then
        Success (tt,
                 push_commitmentHash hash
                   (set_commitment hash
                      (mkCommitment hash (block_number env) (msg_sender env)
                                    (block_timestamp env) false) c),
                 [CommitmentMade hash (msg_sender env) (block_number env)])
      else Revert "Commitment already exists"
    else Revert "Not authorized validator".
Proof.
  unfold makeCommitment, onlyAuthorized. tx_open.
  destruct (is_authorized c (msg_sender env)); [|reflexivity].
  destruct (validator (commitment_at c hash) =? 0); reflexivity.
Qed.

Lemma confirmCommitment_eq env hash c :
  confirmCommitment env hash c =
    if is_authorized c (msg_sender env) then
      if validator (commitment_at c hash) =? 0 then Revert "Commitment does not exist"
      else if confirmed (commitment_at c hash) then Revert "Already confirmed"
      else Success (tt, confirmed_storage hash c,
                    if consensusLocked (currentState c) then []
                    else [ConsensusAchieved (stateHash (currentState c))
                                            (block_timestamp env)])
    else Revert "Not authorized validator".
Proof.
  unfold confirmCommitment, onlyAuthorized, confirmed_storage. tx_open.
  destruct (is_authorized c (msg_sender env)); [|reflexivity].
  destruct (validator (commitment_at c hash) =? 0); [reflexivity|].
  destruct (confirmed (commitment_at c hash)); [reflexivity|].
  cbn [negb currentState set_commitment].
  destruct (consensusLocked (currentState c)); reflexivity.
Qed.

Lemma transact_pause env c : transact env EmergencyPause c = c.
Proof.
  unfold transact, dispatch, emergencyPause, onlyAuthorized. tx_open.
  destruct (is_authorized c (msg_sender env)); reflexivity.
Qed.

Lemma run_app txs1 txs2 c : run c (txs1 ++ txs2) = run (run c txs1) txs2.
Proof.
  revert c. induction txs1 as [|[env call] rest IH]; intros c; cbn; auto.
Qed.

Lemma reachable_run txs c : reachable c -> reachable (run c txs).
Proof.
  revert c. induction txs as [|[env call] rest IH]; intros c Hc; cbn; auto.
  apply IH. now constructor.
Qed.

(** ** Validators *)

Lemma transact_is_authorized env call c a :
  is_authorized (transact env call c) a =
    match call with
    | AuthorizeValidator who =>
        is_authorized c a || (is_authorized c (msg_sender env) && bool_decide (who = a))
    | _ => is_authorized c a
    end.
Proof.
  destruct call as [who|content effect|hash|hash|].
  - unfold transact, dispatch. rewrite authorizeValidator_eq.
    destruct (is_authorized c (msg_sender env)); cbn [andb]; [|now rewrite orb_false_r].
    unfold is_authorized, set_authorized. cbn [authorizedValidators].
    case_bool_decide as Hwho.
    + subst a. rewrite lookup_insert_eq. cbn. now rewrite orb_true_r.
    + rewrite lookup_insert_ne by exact Hwho. now rewrite orb_false_r.
  - rewrite transact_execute.
    destruct (executeLatticeScript env content effect c) as [[[h c'] ev]| |] eqn:E;
      auto.
    apply executeLatticeScript_inv in E as (_ & _ & _ & _ & E & _).
    unfold is_authorized. now rewrite E.
  - unfold transact, dispatch. rewrite makeCommitment_eq.
    destruct (is_authorized c (msg_sender env)); [|reflexivity].
    destruct (validator (commitment_at c hash) =? 0); reflexivity.
  - unfold transact, dispatch. rewrite confirmCommitment_eq.
    destruct (is_authorized c (msg_sender env)); [|reflexivity].
    destruct (validator (commitment_at c hash) =? 0); [reflexivity|].
    destruct (confirmed (commitment_at c hash)); [reflexivity|].
    unfold confirmed_storage. destruct (consensusLocked (currentState c)); reflexivity.
  - now rewrite transact_pause.
Qed.

Lemma authorized_after_run txs c a :
  is_authorized c a = true -> is_authorized (run c txs) a = true.
Proof.
  revert c. induction txs as [|[env call] rest IH]; intros c Ha; cbn; auto.
  apply IH. rewrite transact_is_authorized.
  destruct call; auto. now rewrite Ha.
Qed.

(** X2: validators are never removed.  The deployer and every address that
    is authorized at some point stay authorized through any later run, and an
    address gains authorization only through an authorizeValidator call
    naming it, sent by an address that is already authorized. *)
Theorem validators_only_grow (deploy : Env) (txs : list (Env * Call)) (a : N) :
  let c := run (constructor deploy).1 txs in
  is_authorized c (msg_sender deploy) = true /\
  (forall later_txs,
     is_authorized c a = true -> is_authorized (run c later_txs) a = true) /\
  (forall env call,
     is_authorized c a = false ->
     is_authorized (transact env call c) a = true ->
     call = AuthorizeValidator a /\ is_authorized c (msg_sender env) = true).
Proof.
  intros c. split; [|split].
  - apply authorized_after_run. unfold is_authorized. cbn.
    now rewrite lookup_singleton_eq.
  - intros later_txs. apply authorized_after_run.
  - intros env call Hnot. rewrite transact_is_authorized, ?Hnot.
    destruct call as [who| | | |]; try congruence.
    cbn [orb]. intros Hand. apply andb_prop in Hand as [Hs Hw].
    apply bool_decide_eq_true_1 in Hw. now subst who.
Qed.

Lemma validators_only_grow_witness :
  is_authorized
    (run (run (constructor deployer).1 [(deployer, AuthorizeValidator 2)])
         [(stranger, MakeCommitment 7); (stranger, ExecuteLatticeScript "x" 5)]) 2
  = true.
Proof.
  apply (validators_only_grow deployer [(deployer, AuthorizeValidator 2)] 2).
  vm_compute. reflexivity.
Defined.

(** ** Commitments *)

Lemma transact_commitmentHashes env call c :
  commitmentHashes (transact env call c) =
    commitmentHashes c ++
      match call with
      | MakeCommitment hash =>
          if succeeds (makeCommitment env hash c) then [hash] else []
      | _ => []
      end.
Proof.
  destruct call as [who|content effect|hash|hash|].
  - unfold transact, dispatch. rewrite authorizeValidator_eq.
    destruct (is_authorized c (msg_sender env)); cbn; now rewrite app_nil_r.
  - rewrite transact_execute.
    destruct (executeLatticeScript env content effect c) as [[[h c'] ev]| |] eqn:E;
      rewrite app_nil_r; auto.
    now apply executeLatticeScript_inv in E as (_ & _ & _ & _ & _ & E & _).
  - unfold transact, dispatch. rewrite makeCommitment_eq.
    destruct (is_authorized c (msg_sender env)); cbn; [|now rewrite app_nil_r].
    destruct (validator (commitment_at c hash) =? 0); cbn; [auto|now rewrite app_nil_r].
  - unfold transact, dispatch. rewrite confirmCommitment_eq, app_nil_r.
    destruct (is_authorized c (msg_sender env)); [|reflexivity].
    destruct (validator (commitment_at c hash) =? 0); [reflexivity|].
    destruct (confirmed (commitment_at c hash)); [reflexivity|].
    unfold confirmed_storage. destruct (consensusLocked (currentState c)); reflexivity.
  - now rewrite transact_pause, app_nil_r.
Qed.

Lemma succeeds_makeCommitment env hash c :
  succeeds (makeCommitment env hash c) =
    is_authorized c (msg_sender env) && (validator (commitment_at c hash) =? 0).
Proof.
  rewrite makeCommitment_eq. destruct (is_authorized c (msg_sender env)); [|reflexivity].
  destruct (validator (commitment_at c hash) =? 0); reflexivity.
Qed.

Lemma succeeds_confirmCommitment env hash c :
  succeeds (confirmCommitment env hash c) =
    is_authorized c (msg_sender env)
    && negb (validator (commitment_at c hash) =? 0)
    && negb (confirmed (commitment_at c hash)).
Proof.
  rewrite confirmCommitment_eq. destruct (is_authorized c (msg_sender env)); [|reflexivity].
  destruct (validator (commitment_at c hash) =? 0); [reflexivity|].
  destruct (confirmed (commitment_at c hash)); reflexivity.
Qed.

(** One call on a commitment that has a validator: nothing changes but,
    possibly, its confirmed flag from false to true. *)
Lemma transact_keeps_commitment env call c h :
  validator (commitment_at c h) <> 0 ->
  commitment_at (transact env call c) h = commitment_at c h \/
  commitment_at (transact env call c) h =
    mkCommitment (commitmentHash (commitment_at c h)) (blockHeight (commitment_at c h))
      (validator (commitment_at c h)) (commitment_timestamp (commitment_at c h)) true.
Proof.
  intros Hval. rewrite transact_commitment_at.
  destruct call as [who|content effect|hash|hash|]; auto.
  - rewrite succeeds_makeCommitment. case_bool_decide as Hh; [|rewrite andb_false_r; auto].
    subst hash. apply N.eqb_neq in Hval. rewrite Hval, !andb_false_r. auto.
  - destruct (succeeds _ && bool_decide _); auto.
Qed.

(** X3: a commitment, once made, is never rewritten.  Through any later run
    its digest, block height, validator and timestamp stay as they were, and
    a confirmed commitment stays confirmed. *)
Theorem commitment_is_permanent (txs : list (Env * Call)) (c : Contract) (h : N) :
  validator (commitment_at c h) <> 0 ->
  commitmentHash (commitment_at (run c txs) h) = commitmentHash (commitment_at c h) /\
  blockHeight (commitment_at (run c txs) h) = blockHeight (commitment_at c h) /\
  validator (commitment_at (run c txs) h) = validator (commitment_at c h) /\
  commitment_timestamp (commitment_at (run c txs) h)
    = commitment_timestamp (commitment_at c h) /\
  (confirmed (commitment_at c h) = true ->
   confirmed (commitment_at (run c txs) h) = true).
Proof.
  revert c. induction txs as [|[env call] rest IH]; intros c Hval; cbn [run].
  - auto.
  - destruct (transact_keeps_commitment env call c h Hval) as [Hsame|Hflag].
    + rewrite <- Hsame in Hval |- *. now apply IH.
    + assert (validator (commitment_at (transact env call c) h) <> 0) as Hval'
        by now rewrite Hflag.
      destruct (IH _ Hval') as (H1 & H2 & H3 & H4 & H5).
      rewrite H1, H2, H3, H4, Hflag. cbn. repeat split.
      intros _. apply H5. now rewrite Hflag.
Qed.

Lemma commitment_is_permanent_witness :
  validator (commitment_at
    (run locked [(stranger, ExecuteLatticeScript "x" 5); (deployer, MakeCommitment 7)]) 7)
  = validator (commitment_at locked 7).
Proof.
  apply (commitment_is_permanent
           [(stranger, ExecuteLatticeScript "x" 5); (deployer, MakeCommitment 7)]
           locked 7).
  vm_compute. discriminate.
Defined.

(** X4: a fresh digest goes through in two calls.  An authorized validator
    (not the zero address) makes the commitment and any authorized validator,
    the same one included, confirms it: both calls complete, getCommitment
    then returns the block number, sender and timestamp of the first call
    with confirmed set, the digest is appended to commitmentHashes once and
    the consensus lock is set. *)
Theorem make_then_confirm (maker confirmer : Env) (hash : N) (c : Contract) :
  is_authorized c (msg_sender maker) = true ->
  msg_sender maker <> 0 ->
  is_authorized c (msg_sender confirmer) = true ->
  validator (commitment_at c hash) = 0 ->
  let c1 := transact maker (MakeCommitment hash) c in
  let c2 := transact confirmer (ConfirmCommitment hash) c1 in
  succeeds (makeCommitment maker hash c) = true /\
  succeeds (confirmCommitment confirmer hash c1) = true /\
  getCommitment c2 hash =
    (block_number maker, msg_sender maker, block_timestamp maker, true) /\
  commitmentHashes c2 = commitmentHashes c ++ [hash] /\
  consensusLocked (currentState c2) = true.
Proof.
  intros Hmaker Hnonzero Hconfirmer Hfresh c1 c2.
  assert (succeeds (makeCommitment maker hash c) = true) as Hmade.
  { rewrite succeeds_makeCommitment, Hmaker, Hfresh. reflexivity. }
  assert (commitment_at c1 hash =
          mkCommitment hash (block_number maker) (msg_sender maker)
                       (block_timestamp maker) false) as Hc1.
  { subst c1. rewrite transact_commitment_at, Hmade.
    now rewrite bool_decide_eq_true_2. }
  assert (is_authorized c1 (msg_sender confirmer) = true) as Hauth1.
  { subst c1. now rewrite transact_is_authorized. }
  assert (succeeds (confirmCommitment confirmer hash c1) = true) as Hconfirmed.
  { rewrite succeeds_confirmCommitment, Hauth1, Hc1. cbn.
    apply N.eqb_neq in Hnonzero. now rewrite Hnonzero. }
  repeat split; auto.
  - unfold getCommitment. subst c2.
    rewrite transact_commitment_at, Hconfirmed, bool_decide_eq_true_2, Hc1 by reflexivity.
    reflexivity.
  - subst c2 c1. rewrite !transact_commitmentHashes, Hmade. now rewrite app_nil_r.
  - subst c2. rewrite transact_currentState, Hconfirmed. reflexivity.
Qed.

Lemma make_then_confirm_witness :
  getCommitment (transact deployer (ConfirmCommitment 9)
                   (transact later (MakeCommitment 9) genesis)) 9
  = (10, 1, 1001, true).
Proof.
  apply (make_then_confirm later deployer 9 genesis).
  - vm_compute. reflexivity.
  - vm_compute. discriminate.
  - vm_compute. reflexivity.
  - vm_compute. reflexivity.
Defined.

Lemma commitmentHashes_run txs c :
  commitmentHashes (run c txs) = commitmentHashes c ++ made c txs.
Proof.
  revert c. induction txs as [|[env call] rest IH]; intros c; cbn [run made].
  - now rewrite app_nil_r.
  - rewrite IH, transact_commitmentHashes, <- app_assoc. do 2 f_equal.
    destruct call; reflexivity.
Qed.

Lemma commitments_ok_reachable c : reachable c -> commitments_ok c.
Proof.
  induction 1 as [env|env call c Hreach IH]; intros h.
  - cbn. unfold commitment_at. cbn. rewrite lookup_empty. cbn. split; congruence.
  - destruct (IH h) as [Hzero Hown].
    rewrite transact_commitment_at, transact_commitmentHashes.
    destruct call as [who|content effect|hash|hash|]; rewrite ?app_nil_r; auto.
    + destruct (succeeds (makeCommitment env hash c)); cbn [andb];
        rewrite ?app_nil_r; auto.
      case_bool_decide as Hh.
      * subst hash. split; [|reflexivity].
        intros Hnot. destruct Hnot. apply elem_of_app. right. constructor.
      * split; [|exact Hown]. intros Hnot. apply Hzero. intros Hin.
        apply Hnot, elem_of_app. now left.
    + destruct (succeeds (confirmCommitment env hash c)) eqn:Hok; cbn [andb]; auto.
      case_bool_decide as Hh; auto. subst hash.
      rewrite succeeds_confirmCommitment in Hok.
      apply andb_prop in Hok as [Hok _]. apply andb_prop in Hok as [_ Hval].
      apply negb_true_iff, N.eqb_neq in Hval. split.
      * intros Hnot. apply Hzero in Hnot. rewrite Hnot in Hval. now destruct Hval.
      * cbn. intros _. now apply Hown.
Qed.

(** X5: commitmentHashes is the log of the makeCommitment calls that went
    through, in order; when no call comes from the zero address it lists no
    digest twice, so getCommitmentCount is the number of digests committed. *)
Theorem commitment_log (deploy : Env) (txs : list (Env * Call)) :
  Forall (fun tx => msg_sender tx.1 <> 0) txs ->
  let c := run (constructor deploy).1 txs in
  commitmentHashes c = made (constructor deploy).1 txs /\
  NoDup (commitmentHashes c) /\
  getCommitmentCount c = length (remove_dups (made (constructor deploy).1 txs)).
Proof.
  intros Hsenders c.
  assert (commitmentHashes c = made (constructor deploy).1 txs) as Hlog
    by (subst c; now rewrite commitmentHashes_run).
  assert (NoDup (commitmentHashes c)) as Hnodup.
  { subst c. clear Hlog.
    enough (forall c0, NoDup (commitmentHashes c0) ->
              (forall h, h ∈ commitmentHashes c0 -> validator (commitment_at c0 h) <> 0) ->
              NoDup (commitmentHashes (run c0 txs))) as Hgen.
    { apply Hgen; cbn; [constructor | intros h Hin; inversion Hin]. }
    induction Hsenders as [|[env call] rest Hsender _ IH]; intros c0 Hnodup Hval;
      cbn [run]; auto.
    cbn in Hsender. apply IH.
    - rewrite transact_commitmentHashes.
      destruct call as [who|content effect|hash|hash|]; rewrite ?app_nil_r; auto.
      rewrite succeeds_makeCommitment.
      destruct (is_authorized c0 (msg_sender env)); cbn [andb]; rewrite ?app_nil_r; auto.
      destruct (validator (commitment_at c0 hash) =? 0) eqn:Hfree;
        rewrite ?app_nil_r; auto.
      apply N.eqb_eq in Hfree. apply NoDup_app.
      split; [exact Hnodup | split; [|apply NoDup_singleton]].
      intros k Hk Hk'. apply list_elem_of_singleton in Hk'. subst k.
      now apply Hval in Hk.
    - intros h. rewrite transact_commitmentHashes, elem_of_app. intros [Hin|Hnew].
      + destruct (transact_keeps_commitment env call c0 h (Hval h Hin)) as [->| ->];
          [now apply Hval | cbn; now apply Hval].
      + destruct call as [who|content effect|hash|hash|];
          try (now apply elem_of_nil in Hnew).
        destruct (succeeds (makeCommitment env hash c0)) eqn:Hok;
          [|now apply elem_of_nil in Hnew].
        apply list_elem_of_singleton in Hnew. subst h.
        rewrite transact_commitment_at, Hok, bool_decide_eq_true_2 by reflexivity.
        exact Hsender. }
  split; [exact Hlog|]. split; [exact Hnodup|].
  unfold getCommitmentCount. rewrite <- Hlog.
  apply Permutation_length, NoDup_Permutation;
    [exact Hnodup | apply NoDup_remove_dups |].
  intros h. now rewrite elem_of_remove_dups.
Qed.

Lemma commitment_log_witness :
  commitmentHashes (run (constructor deployer).1
     [(deployer, MakeCommitment 7); (stranger, MakeCommitment 8);
      (later, MakeCommitment 7); (deployer, MakeCommitment 9)])
  = made (constructor deployer).1
     [(deployer, MakeCommitment 7); (stranger, MakeCommitment 8);
      (later, MakeCommitment 7); (deployer, MakeCommitment 9)].
Proof.
  apply (commitment_log deployer
     [(deployer, MakeCommitment 7); (stranger, MakeCommitment 8);
      (later, MakeCommitment 7); (deployer, MakeCommitment 9)]).
  repeat constructor; vm_compute; discriminate.
Defined.

Example commitment_log_example :
  made (constructor deployer).1
     [(deployer, MakeCommitment 7); (stranger, MakeCommitment 8);
      (later, MakeCommitment 7); (deployer, MakeCommitment 9)] = [7; 9].
Proof. vm_compute. reflexivity. Qed.

(** The zero address as validator: its commitment counts as absent, so the
    same digest is listed again. *)
Example zero_address_commits_twice :
  let zero := mkEnv 0 1000 10 7 in
  commitmentHashes (run genesis
     [(deployer, AuthorizeValidator 0); (zero, MakeCommitment 7);
      (zero, MakeCommitment 7)]) = [7; 7].
Proof. vm_compute. reflexivity. Qed.

(** ** The network statistics *)

Lemma count_confirmed_eq (rest : list N) (i count : N) (c : Contract) :
  count <= i ->
  i + N.of_nat (length rest) <= MAX_UINT256 ->
  count_confirmed rest i count c =
    Success (count + N.of_nat (length (List.filter
                                 (fun h => confirmed (commitment_at c h)) rest)),
             c, []).
Proof.
  revert i count. induction rest as [|h rest IH]; intros i count Hle Hfit.
  - cbn. tx_open. now rewrite N.add_0_r.
  - cbn [count_confirmed List.filter]. cbn [length] in Hfit.
    rewrite Nat2N.inj_succ in Hfit.
    assert ((i + 1 <=? MAX_UINT256) = true) as Hi by (apply N.leb_le; lia).
    assert ((count + 1 <=? MAX_UINT256) = true) as Hc by (apply N.leb_le; lia).
    tx_open. destruct (confirmed (commitment_at c h)).
    + rewrite Hc. tx_open. rewrite Hi. tx_open. rewrite IH by lia. cbn [length app].
      rewrite Nat2N.inj_succ. do 2 f_equal. f_equal. lia.
    + tx_open. rewrite Hi. tx_open. rewrite IH by lia. reflexivity.
Qed.

Lemma getNetworkStats_eq (c : Contract) :
  N.of_nat (length (commitmentHashes c)) <= MAX_UINT256 ->
  getNetworkStats c =
    Success ((N.of_nat (length (scriptHashes c)),
              N.of_nat (length (commitmentHashes c)),
              N.of_nat (length (List.filter (fun h => confirmed (commitment_at c h))
                                            (commitmentHashes c))),
              consensusLocked (currentState c)), c, []).
Proof.
  intros Hfit. unfold getNetworkStats. tx_open.
  rewrite count_confirmed_eq by lia. reflexivity.
Qed.

(** X6: getNetworkStats is a pure view.  With at most 2^256 - 1 commitments
    listed it completes, changes nothing in the storage and emits nothing; it
    returns the two list lengths, the number of listed digests whose
    commitment is confirmed, which is at most the number of commitments, and
    the consensus flag. *)
Theorem network_stats_view (c : Contract) :
  N.of_nat (length (commitmentHashes c)) <= MAX_UINT256 ->
  exists count,
    getNetworkStats c =
      Success ((N.of_nat (getScriptCount c), N.of_nat (getCommitmentCount c),
                count, consensusLocked (currentState c)), c, []) /\
    count = N.of_nat (length (List.filter (fun h => confirmed (commitment_at c h))
                                          (commitmentHashes c))) /\
    count <= N.of_nat (getCommitmentCount c).
Proof.
  intros Hfit. eexists. split; [|split; [reflexivity|]].
  - now apply getNetworkStats_eq.
  - unfold getCommitmentCount. pose proof (List.filter_length_le
      (fun h => confirmed (commitment_at c h)) (commitmentHashes c)). lia.
Qed.

Lemma network_stats_view_witness :
  exists count,
    getNetworkStats locked = Success ((0, 1, count, true), locked, []) /\
    count = 1 /\ count <= 1.
Proof.
  assert (N.of_nat (length (commitmentHashes locked)) <= MAX_UINT256) as Hfit
    by (vm_compute; discriminate).
  destruct (network_stats_view locked Hfit) as (count & Hstats & Hcount & Hle).
  exists count. split; [exact Hstats|]. split; [|exact Hle].
  rewrite Hcount. vm_compute. reflexivity.
Defined.

Lemma locked_has_confirmed c :
  reachable c ->
  consensusLocked (currentState c) = true ->
  exists h, confirmed (commitment_at c h) = true.
Proof.
  induction 1 as [env|env call c Hreach IH]; [discriminate|].
  rewrite transact_currentState. intros Hlock.
  assert (consensusLocked (currentState c) = true ->
          exists h, confirmed (commitment_at (transact env call c) h) = true) as Hold.
  { intros Hc. destruct (IH Hc) as [h Hh]. exists h.
    pose proof (confirmed_has_validator c Hreach h Hh) as Hval.
    destruct (transact_keeps_commitment env call c h Hval) as [->| ->]; auto. }
  destruct call as [who|content effect|hash|hash|]; auto.
  - destruct (succeeds _); auto. discriminate.
  - destruct (succeeds (confirmCommitment env hash c)) eqn:Hok; auto.
    exists hash. now rewrite transact_commitment_at, Hok, bool_decide_eq_true_2.
Qed.

(** X7: the consensus flag is backed by a commitment.  In every state the
    contract can reach with the flag set, some listed digest is confirmed, so
    getNetworkStats reports consensusStatus true only together with
    confirmedCommitments of at least 1. *)
Theorem consensus_needs_confirmation (c : Contract) :
  reachable c ->
  N.of_nat (length (commitmentHashes c)) <= MAX_UINT256 ->
  consensusLocked (currentState c) = true ->
  exists scripts total count,
    getNetworkStats c = Success ((scripts, total, count, true), c, []) /\
    1 <= count /\ count <= total.
Proof.
  intros Hreach Hfit Hlock.
  pose proof (getNetworkStats_eq c Hfit) as Hstats.
  rewrite Hlock in Hstats. do 3 eexists. split; [exact Hstats|].
  split; [|pose proof (List.filter_length_le
             (fun h => confirmed (commitment_at c h)) (commitmentHashes c)); lia].
  destruct (locked_has_confirmed c Hreach Hlock) as [h Hh].
  assert (h ∈ commitmentHashes c) as Hin.
  { destruct (decide (h ∈ commitmentHashes c)) as [|Hnot]; [assumption|].
    apply (commitments_ok_reachable c Hreach h) in Hnot.
    rewrite Hnot in Hh. discriminate. }
  assert (In h (List.filter (fun h => confirmed (commitment_at c h)) (commitmentHashes c)))
    as Hfiltered by (apply List.filter_In; split; [now apply list_elem_of_In | exact Hh]).
  destruct (List.filter _ _); [destruct Hfiltered | cbn [length]; lia].
Qed.

Lemma consensus_needs_confirmation_witness :
  exists scripts total count,
    getNetworkStats locked = Success ((scripts, total, count, true), locked, []) /\
    1 <= count /\ count <= total.
Proof.
  apply (consensus_needs_confirmation locked).
  - do 2 apply reachable_transact. apply reachable_deployed.
  - vm_compute. discriminate.
  - vm_compute. reflexivity.
Defined.

(** X8: a digest nobody committed.  In every reachable state a digest that
    is not listed in commitmentHashes reads as the zero commitment through
    getCommitment, and confirmCommitment on it by an authorized validator
    reverts with "Commitment does not exist". *)
Theorem unknown_digest (c : Contract) (env : Env) (h : N) :
  reachable c ->
  h ∉ commitmentHashes c ->
  getCommitment c h = (0, 0, 0, false) /\
  (is_authorized c (msg_sender env) = true ->
   confirmCommitment env h c = Revert "Commitment does not exist") /\
  transact env (ConfirmCommitment h) c = c.
Proof.
  intros Hreach Hnot.
  apply (commitments_ok_reachable c Hreach h) in Hnot.
  unfold getCommitment, transact, dispatch. rewrite confirmCommitment_eq, Hnot. cbn.
  split; [reflexivity|]. split.
  - now intros ->.
  - destruct (is_authorized c (msg_sender env)); reflexivity.
Qed.

Lemma unknown_digest_witness :
  getCommitment locked 8 = (0, 0, 0, false) /\
  confirmCommitment deployer 8 locked = Revert "Commitment does not exist".
Proof.
  assert (reachable locked) as Hreach
    by (do 2 apply reachable_transact; apply reachable_deployed).
  assert (8 ∉ commitmentHashes locked) as Hnot
    by (vm_compute; intros Hin; apply list_elem_of_singleton in Hin; discriminate).
  destruct (unknown_digest locked deployer 8 Hreach Hnot) as (Hget & Hrevert & _).
  split; [exact Hget|]. apply Hrevert. vm_compute. reflexivity.
Defined.

(** ** Counting executions *)

Lemma succeeds_dispatch_execute env content effect c :
  succeeds (dispatch env (ExecuteLatticeScript content effect) c)
    = succeeds (executeLatticeScript env content effect c).
Proof. unfold dispatch. apply succeeds_erase. Qed.

(** X9: evolution_count counts the script executions.  After any run it is
    the count before the run plus the number of executeLatticeScript calls
    that went through; no other call and no failed call moves it. *)
Theorem evolution_count_counts_executions (txs : list (Env * Call)) (c : Contract) :
  evolutionCount (currentState (run c txs))
    = evolutionCount (currentState c) + N.of_nat (length (submitted c txs)).
Proof.
  revert c. induction txs as [|[env call] rest IH]; intros c; cbn [run submitted].
  - cbn. lia.
  - rewrite IH, transact_currentState, length_app, Nat2N.inj_add.
    destruct call as [who|content effect|hash|hash|]; cbn [length]; try lia.
    + rewrite succeeds_dispatch_execute.
      destruct (succeeds (executeLatticeScript env content effect c)); cbn; lia.
    + destruct (succeeds (confirmCommitment env hash c)); cbn; lia.
Qed.

(** ** Phase variance along a run *)

Lemma sum_list_app (l k : list N) : sum_list (l ++ k) = sum_list l + sum_list k.
Proof.
  unfold sum_list. induction l as [|a l IH]; cbn [app fold_right]; lia.
Qed.

Lemma variance_after_run (txs : list (Env * Call)) (c : Contract) :
  phaseVariance (currentState c) < 2000000 ->
  phaseVariance (currentState (run c txs))
    = (phaseVariance (currentState c) + sum_list (variance_changes c txs)) mod 2000000.
Proof.
  revert c. induction txs as [|[env call] rest IH]; intros c Hlt;
    cbn [run variance_changes].
  - cbn. rewrite N.add_0_r. symmetry. now apply N.mod_small.
  - match goal with |- context [sum_list (?head ++ _)] => set (changes := head) end.
    assert (phaseVariance (currentState (transact env call c)) < 2000000 /\
            phaseVariance (currentState (transact env call c))
              = (phaseVariance (currentState c) + sum_list changes) mod 2000000)
      as [Hlt' Hstep].
    { subst changes. rewrite transact_currentState.
      assert (phaseVariance (currentState c)
              = (phaseVariance (currentState c) + sum_list []) mod 2000000) as Hsame
        by (cbn; rewrite N.add_0_r; symmetry; now apply N.mod_small).
      destruct call as [who|content effect|hash|hash|]; auto.
      - rewrite succeeds_dispatch_execute.
        destruct (succeeds (executeLatticeScript env content effect c)); auto.
        cbn. rewrite N.add_0_r. split; [apply N.mod_lt; discriminate | reflexivity].
      - destruct (succeeds (confirmCommitment env hash c)); auto. }
    rewrite IH by exact Hlt'. rewrite Hstep, sum_list_app.
    rewrite N.Div0.add_mod_idemp_l. f_equal. lia.
Qed.

(** X10: phase_variance in closed form.  After any run from deployment it is
    the genesis value 1123580 plus the sum of floor(effect * 1618034 / 10^6)
    over the script executions that went through, reduced modulo 2,000,000. *)
Theorem variance_closed_form (deploy : Env) (txs : list (Env * Call)) :
  phaseVariance (currentState (run (constructor deploy).1 txs))
    = (1123580 + sum_list (variance_changes (constructor deploy).1 txs)) mod 2000000.
Proof. rewrite variance_after_run; [reflexivity | cbn; reflexivity]. Qed.

Example variance_closed_form_example :
  variance_changes genesis
    [(deployer, ExecuteLatticeScript "x" 1000000);
     (stranger, MakeCommitment 7);
     (stranger, ExecuteLatticeScript "y" 3)] = [1618034; 4] /\
  phaseVariance (currentState (run genesis
    [(deployer, ExecuteLatticeScript "x" 1000000);
     (stranger, MakeCommitment 7);
     (stranger, ExecuteLatticeScript "y" 3)])) = 741618.
Proof. vm_compute. split; reflexivity. Qed.

(** ** Arithmetic limits of a script execution *)

(** X11: the effect is bounded by the checked multiplication.  When
    latticeEffect * 1618034 exceeds 2^256 - 1 the call panics with code 0x11
    (arithmetic overflow), whoever sends it and whatever the script, and the
    storage stays as it was. *)
Theorem oversized_effect_panics
    (env : Env) (content : string) (effect : N) (c : Contract) :
  MAX_UINT256 < effect * 1618034 ->
  executeLatticeScript env content effect c = Panic 0x11 /\
  transact env (ExecuteLatticeScript content effect) c = c.
Proof.
  intros Hbig.
  assert (executeLatticeScript env content effect c = Panic 0x11) as Hpanic.
  { assert ((effect * 1618034 <=? MAX_UINT256) = false) as Hmul
      by (apply N.leb_gt; exact Hbig).
    assert (forall d, _updateLatticeState env effect d = Panic 0x11) as Hupdate.
    { intros d. unfold _updateLatticeState. tx_open.
      destruct (evolutionCount (currentState d) + 1 <=? MAX_UINT256); [|reflexivity].
      tx_open. now rewrite Hmul. }
    unfold executeLatticeScript. tx_open.
    destruct (String.length _ =? 0)%nat.
    - now rewrite Hupdate.
    - destruct (executionCount _ + 1 <=? MAX_UINT256); [|reflexivity].
      tx_open. now rewrite Hupdate. }
  split; [exact Hpanic|]. now rewrite transact_execute, Hpanic.
Qed.

Lemma oversized_effect_panics_witness :
  executeLatticeScript stranger "x" (2 ^ 255) genesis = Panic 0x11.
Proof.
  apply (oversized_effect_panics stranger "x" (2 ^ 255) genesis).
  vm_compute. reflexivity.
Defined.

(** ** The stored scripts *)

Lemma registry_ok_reachable c : reachable c -> registry_ok c.
Proof.
  induction 1; [apply registry_ok_deployed | now apply registry_ok_transact].
Qed.

Lemma scripts_ok_reachable c : reachable c -> scripts_ok c.
Proof.
  induction 1 as [env|env call c Hreach IH].
  - intros h. cbn. split; [intros Hin; inversion Hin|].
    intros _. unfold script_at. cbn. now rewrite lookup_empty.
  - destruct (registry_ok_reachable c Hreach) as [_ Hlisted].
    destruct call as [who|content effect|hash|hash|].
    2: { rewrite transact_execute.
         destruct (executeLatticeScript env content effect c)
           as [[[k c'] ev]| |] eqn:E; auto.
         apply executeLatticeScript_inv in E
           as (-> & _ & _ & _ & _ & _ & [(Hnew & Hlist & Hmap)|(Hold & _ & Hlist & Hmap)]);
           intros h; destruct (IH h) as [Hin Hout];
           rewrite Hlist, (script_at_insert _ _ _ _ _ Hmap); case_bool_decide as Hh.
         - subst h. cbn. split; [intros _; repeat split; lia|].
           intros Hnot. destruct Hnot. apply elem_of_app. right. constructor.
         - rewrite elem_of_app, list_elem_of_singleton. split.
           + intros [Hk|Hk]; [now apply Hin | congruence].
           + intros Hnot. apply Hout. tauto.
         - subst h. apply Hlisted in Hold. destruct (Hin Hold) as (H1 & H2 & H3 & H4).
           cbn. split; [intros _; repeat split; auto; lia | tauto].
         - split; auto. }
    all: match goal with |- scripts_ok (transact _ ?call _) =>
           destruct (transact_registry env call c) as [Hlist Hmap]; [discriminate|]
         end.
    all: intros h; unfold script_at; rewrite Hlist, Hmap; apply IH.
Qed.

(** X12: what is stored under a hash.  In every reachable state a listed
    script hash is the hash of the content stored under it, its execution
    count is at least 1 and it is not verified (no call ever sets the flag);
    for a hash that is not listed getLatticeScript returns the zero values. *)
Theorem stored_scripts (c : Contract) (h : string) :
  reachable c ->
  (h ∈ scriptHashes c ->
     script_hash_of (scriptContent (script_at c h)) = h /\
     1 <= executionCount (script_at c h) /\
     verified (script_at c h) = false) /\
  (h ∉ scriptHashes c ->
     getLatticeScript c h = (""%string, 0, 0, 0, 0, false)).
Proof.
  intros Hreach. destruct (scripts_ok_reachable c Hreach h) as [Hin Hout]. split.
  - intros Hh. destruct (Hin Hh) as (_ & H2 & H3 & H4). auto.
  - intros Hh. unfold getLatticeScript. now rewrite (Hout Hh).
Qed.

Lemma stored_scripts_witness :
  let c := transact stranger (ExecuteLatticeScript "x" 5) genesis in
  script_hash_of (scriptContent (script_at c (script_hash_of "x"))) = script_hash_of "x" /\
  getLatticeScript c (script_hash_of "y") = (""%string, 0, 0, 0, 0, false).
Proof.
  intros c.
  assert (reachable c) as Hreach by apply reachable_transact, reachable_deployed.
  split.
  - apply (stored_scripts c (script_hash_of "x") Hreach).
    vm_compute. constructor.
  - apply (stored_scripts c (script_hash_of "y") Hreach).
    vm_compute. intros Hin. apply list_elem_of_singleton in Hin. discriminate.
Defined.

Lemma transact_executionCount env call c h :
  reachable c ->
  executionCount (script_at (transact env call c) h) =
    executionCount (script_at c h) +
    match call with
    | ExecuteLatticeScript content effect =>
        if succeeds (executeLatticeScript env content effect c)
           && bool_decide (script_hash_of content = h)
        then 1 else 0
    | _ => 0
    end.
Proof.
  intros Hreach.
  destruct (registry_ok_reachable c Hreach) as [_ Hlisted].
  destruct call as [who|content effect|hash|hash|].
  2: { rewrite transact_execute.
       destruct (executeLatticeScript env content effect c)
         as [[[k c'] ev]| |] eqn:E; cbn [succeeds andb]; try lia.
       apply executeLatticeScript_inv in E
         as (-> & _ & _ & _ & _ & _ & [(Hnew & _ & Hmap)|(_ & _ & _ & Hmap)]);
         rewrite (script_at_insert _ _ _ _ _ Hmap); case_bool_decide as Hh; try lia.
       - subst h. cbn.
         assert (script_hash_of content ∉ scriptHashes c) as Hnot
           by (rewrite Hlisted; tauto).
         apply (scripts_ok_reachable c Hreach) in Hnot. now rewrite Hnot.
       - subst h. reflexivity. }
  all: match goal with |- context [transact _ ?call _] =>
         destruct (transact_registry env call c) as [_ Hmap]; [discriminate|]
       end.
  all: unfold script_at; rewrite Hmap; lia.
Qed.

(** X13: a script's execution count is the number of times it was executed.
    After any run from deployment, the executionCount stored under a hash is
    the number of executeLatticeScript calls with that hash that went
    through. *)
Theorem execution_count_counts (deploy : Env) (txs : list (Env * Call)) (h : string) :
  executionCount (script_at (run (constructor deploy).1 txs) h)
    = N.of_nat (length (filter (fun k => k = h) (submitted (constructor deploy).1 txs))).
Proof.
  enough (forall c, reachable c ->
            executionCount (script_at (run c txs) h)
              = executionCount (script_at c h)
                + N.of_nat (length (filter (fun k => k = h) (submitted c txs)))) as Hgen.
  { rewrite Hgen by constructor. unfold script_at. cbn. rewrite lookup_empty. reflexivity. }
  induction txs as [|[env call] rest IH]; intros c Hreach; cbn [run submitted].
  - cbn. lia.
  - rewrite IH by now constructor.
    rewrite transact_executionCount by exact Hreach.
    rewrite filter_app, length_app, Nat2N.inj_add.
    destruct call as [who|content effect|hash|hash|];
      rewrite ?filter_nil; cbn [length]; try lia.
    rewrite succeeds_dispatch_execute. fold (script_hash_of content).
    destruct (succeeds (executeLatticeScript env content effect c)); cbn [andb];
      [|rewrite filter_nil; cbn; lia].
    rewrite filter_cons, filter_nil.
    case_bool_decide; case_decide; try congruence; cbn [length]; lia.
Qed.

Example execution_count_example :
  let c := run genesis [(deployer, ExecuteLatticeScript "x" 5);
                        (stranger, ExecuteLatticeScript "y" 6);
                        (later, ExecuteLatticeScript "x" 7)] in
  getLatticeScript c (script_hash_of "x") = ("x"%string, 1, 2, 7, 1001, false) /\
  getLatticeScript c (script_hash_of "y") = ("y"%string, 2, 1, 6, 1060, false).
Proof. vm_compute. split; reflexivity. Qed.

Lemma transact_keeps_script env call c h :
  scriptHash (script_at c h) <> ""%string ->
  scriptHash (script_at (transact env call c) h) = scriptHash (script_at c h) /\
  scriptContent (script_at (transact env call c) h) = scriptContent (script_at c h) /\
  submitter (script_at (transact env call c) h) = submitter (script_at c h) /\
  verified (script_at (transact env call c) h) = verified (script_at c h).
Proof.
  intros Hstored. destruct call as [who|content effect|hash|hash|].
  2: { rewrite transact_execute.
       destruct (executeLatticeScript env content effect c)
         as [[[k c'] ev]| |] eqn:E; auto.
       apply executeLatticeScript_inv in E
         as (-> & _ & _ & _ & _ & _ & [(Hnew & _ & Hmap)|(_ & _ & _ & Hmap)]);
         rewrite (script_at_insert _ _ _ _ _ Hmap); case_bool_decide as Hh; auto.
       - subst h. contradiction.
       - subst h. cbn. auto. }
  all: match goal with |- context [transact _ ?call _] =>
         destruct (transact_registry env call c) as [_ Hmap]; [discriminate|]
       end.
  all: unfold script_at; rewrite Hmap; auto.
Qed.

(** X14: a script belongs to its first submitter.  Once a script is stored
    under a hash, no later run changes its content, its submitter or its
    verified flag: executing it again only moves the count, the effect and
    the timestamp. *)
Theorem script_is_permanent (txs : list (Env * Call)) (c : Contract) (h : string) :
  scriptHash (script_at c h) <> ""%string ->
  scriptContent (script_at (run c txs) h) = scriptContent (script_at c h) /\
  submitter (script_at (run c txs) h) = submitter (script_at c h) /\
  verified (script_at (run c txs) h) = verified (script_at c h).
Proof.
  revert c. induction txs as [|[env call] rest IH]; intros c Hstored; cbn [run]; auto.
  destruct (transact_keeps_script env call c h Hstored) as (H1 & H2 & H3 & H4).
  rewrite <- H2, <- H3, <- H4. apply IH. now rewrite H1.
Qed.

Lemma script_is_permanent_witness :
  submitter (script_at
    (run (transact deployer (ExecuteLatticeScript "x" 5) genesis)
         [(stranger, ExecuteLatticeScript "x" 6)]) (script_hash_of "x"))
  = submitter (script_at (transact deployer (ExecuteLatticeScript "x" 5) genesis)
                         (script_hash_of "x")).
Proof.
  apply (script_is_permanent [(stranger, ExecuteLatticeScript "x" 6)]
           (transact deployer (ExecuteLatticeScript "x" 5) genesis)
           (script_hash_of "x")).
  vm_compute. discriminate.
Defined.

(** ** Events *)

Lemma executeLatticeScript_events env content effect c h c' events :
  executeLatticeScript env content effect c = Success (h, c', events) ->
  events = [ScriptExecuted h (msg_sender env) effect;
            StateUpdate (evolutionCount (currentState c'))
                        (phaseVariance (currentState c'))
                        (stateHash (currentState c'))].
Proof.
  intros Hok. pose proof Hok as Hinv.
  apply executeLatticeScript_inv in Hinv as (-> & Hfit & Hstate & _).
  rewrite Hstate. revert Hok. unfold executeLatticeScript.
  fold (script_hash_of content). tx_open.
  destruct (String.length _ =? 0)%nat.
  - rewrite updateLatticeState_success by exact Hfit. now intros [= <- <-].
  - destruct (executionCount _ + 1 <=? MAX_UINT256); tx_open; [|discriminate].
    rewrite updateLatticeState_success by exact Hfit. now intros [= <- <-].
Qed.

Lemma logs_eq env call c :
  logs env call c =
    match call with
    | AuthorizeValidator who =>
        if is_authorized c (msg_sender env) then [ValidatorAuthorized who] else []
    | ExecuteLatticeScript content effect =>
        if succeeds (executeLatticeScript env content effect c)
        then [ScriptExecuted (script_hash_of content) (msg_sender env) effect;
              StateUpdate
                (evolutionCount (updated_state env (currentState c) effect))
                (phaseVariance (updated_state env (currentState c) effect))
                (stateHash (updated_state env (currentState c) effect))]
        else []
    | MakeCommitment hash =>
        if succeeds (makeCommitment env hash c)
        then [CommitmentMade hash (msg_sender env) (block_number env)] else []
    | ConfirmCommitment hash =>
        if succeeds (confirmCommitment env hash c)
           && negb (consensusLocked (currentState c))
        then [ConsensusAchieved (stateHash (currentState c)) (block_timestamp env)]
        else []
    | EmergencyPause => []
    end.
Proof.
  unfold logs. destruct call as [who|content effect|hash|hash|]; unfold dispatch.
  - rewrite authorizeValidator_eq. now destruct (is_authorized c (msg_sender env)).
  - rewrite erase_eq.
    destruct (executeLatticeScript env content effect c) as [[[h c'] ev]| |] eqn:E;
      auto.
    pose proof (executeLatticeScript_events _ _ _ _ _ _ _ E) as ->.
    apply executeLatticeScript_inv in E as (-> & _ & -> & _). reflexivity.
  - rewrite makeCommitment_eq. destruct (is_authorized c (msg_sender env)); auto.
    now destruct (validator (commitment_at c hash) =? 0).
  - rewrite confirmCommitment_eq. destruct (is_authorized c (msg_sender env)); auto.
    destruct (validator (commitment_at c hash) =? 0); auto.
    destruct (confirmed (commitment_at c hash)); auto.
    now destruct (consensusLocked (currentState c)).
  - unfold emergencyPause. rewrite onlyAuthorized_eq.
    now destruct (is_authorized c (msg_sender env)).
Qed.

(** X15: the events of a call describe the storage it leaves.  After a call
    that emitted StateUpdate the lattice state holds the count, variance and
    hash of the event; after ConsensusAchieved the lock is set on the hash of
    the event; after CommitmentMade getCommitment returns the block height
    and sender of the event, not yet confirmed; after ValidatorAuthorized the
    named address is authorized. *)
Theorem events_match_storage (env : Env) (call : Call) (c : Contract) :
  let c' := transact env call c in
  (forall count variance hash,
     StateUpdate count variance hash ∈ logs env call c ->
     evolutionCount (currentState c') = count /\
     phaseVariance (currentState c') = variance /\
     stateHash (currentState c') = hash) /\
  (forall hash time,
     ConsensusAchieved hash time ∈ logs env call c ->
     consensusLocked (currentState c') = true /\ stateHash (currentState c') = hash) /\
  (forall hash sender height,
     CommitmentMade hash sender height ∈ logs env call c ->
     getCommitment c' hash = (height, sender, block_timestamp env, false)) /\
  (forall who,
     ValidatorAuthorized who ∈ logs env call c -> is_authorized c' who = true).
Proof.
  intros c'. subst c'. rewrite logs_eq.
  destruct call as [who|content effect|hash|hash|]; repeat split;
    try (intros; exfalso;
         repeat match goal with
                | H : _ ∈ (if ?b then _ else _) |- _ => destruct b
                | H : _ ∈ [] |- _ => inversion H
                | H : _ ∈ _ :: _ |- _ => apply elem_of_cons in H as [H|H]
                | H : _ = _ |- _ => discriminate H
                end; fail).
  - intros who' Hin.
    destruct (is_authorized c (msg_sender env)) eqn:Hauth; [|inversion Hin].
    apply list_elem_of_singleton in Hin. injection Hin as ->.
    rewrite transact_is_authorized, Hauth, bool_decide_eq_true_2 by reflexivity.
    apply orb_true_r.
  - destruct (succeeds (executeLatticeScript env content effect c)) eqn:Hok;
      [|inversion H].
    rewrite transact_currentState, Hok.
    apply elem_of_cons in H as [H|H]; [discriminate|].
    apply list_elem_of_singleton in H. now injection H as -> -> ->.
  - destruct (succeeds (executeLatticeScript env content effect c)) eqn:Hok;
      [|inversion H].
    rewrite transact_currentState, Hok.
    apply elem_of_cons in H as [H|H]; [discriminate|].
    apply list_elem_of_singleton in H. now injection H as -> -> ->.
  - destruct (succeeds (executeLatticeScript env content effect c)) eqn:Hok;
      [|inversion H].
    rewrite transact_currentState, Hok.
    apply elem_of_cons in H as [H|H]; [discriminate|].
    apply list_elem_of_singleton in H. now injection H as -> -> ->.
  - intros hash' sender height Hin.
    destruct (succeeds (makeCommitment env hash c)) eqn:Hok; [|inversion Hin].
    apply list_elem_of_singleton in Hin. injection Hin as -> -> ->.
    unfold getCommitment.
    now rewrite transact_commitment_at, Hok, bool_decide_eq_true_2.
  - destruct (succeeds (confirmCommitment env hash c)) eqn:Hok; [|inversion H].
    rewrite transact_currentState, Hok. reflexivity.
  - destruct (succeeds (confirmCommitment env hash c)) eqn:Hok; [|inversion H].
    rewrite transact_currentState, Hok. cbn [andb] in H.
    destruct (consensusLocked (currentState c)); [inversion H|].
    apply list_elem_of_singleton in H. now injection H as -> _.
Qed.

Lemma events_match_storage_witness :
  getCommitment (transact deployer (MakeCommitment 7) genesis) 7 = (10, 1, 1000, false).
Proof.
  destruct (events_match_storage deployer (MakeCommitment 7) genesis)
    as (_ & _ & Hmade & _).
  apply (Hmade 7 1 10). vm_compute. constructor.
Defined.

End LedgerRuns.

(** * Further properties of the servers *)
Section ServerRuns.
Import JS Visualizer Stats.

(** ** Reading the state file *)

Lemma readLatticeState_again (d : Disk) :
  (readLatticeState (readLatticeState d).1.2).1
    = ((readLatticeState d).1.1, (readLatticeState d).1.2).
Proof. destruct d as [[[v|raw]|] []]; reflexivity. Qed.

(** X16: reads settle the state file.  A read rewrites the file exactly when
    it is missing or malformed and can be written; on a writable disk the
    file afterwards parses to the value returned; and a second read returns
    the same value and leaves the disk as the first read left it. *)
Theorem read_settles_disk (d : Disk) :
  let value := (readLatticeState d).1.1 in
  let d' := (readLatticeState d).1.2 in
  (d' <> d <->
   writable d = true /\ forall v, state_json d <> Some (Parses v)) /\
  (writable d = true -> state_json d' = Some (Parses value)) /\
  (readLatticeState d').1 = (value, d').
Proof.
  intros value d'. split; [|split; [|apply readLatticeState_again]].
  - subst d'. destruct d as [[[v|raw]|] []]; cbn; split;
      try congruence; try discriminate;
      try (intros [_ Hno]; now destruct (Hno v));
      try (intros Hne; now destruct Hne);
      try (intros [Hw _]; discriminate);
      try (intros _; split; [reflexivity | discriminate]).
  - subst value d'. destruct d as [[[v|raw]|] []]; cbn; congruence.
Qed.

Lemma read_settles_disk_witness :
  state_json (readLatticeState (mkDisk None true)).1.2 = Some (Parses defaultState).
Proof.
  apply (read_settles_disk (mkDisk None true)). reflexivity.
Defined.

(** ** The broadcast loop *)

Section Broadcast.
Variable JSON_stringify : jsval -> string.

Lemma update_tick_cases (d : Disk) (current : jsval) :
  let value := (readLatticeState d).1.1 in
  let d' := (readLatticeState d).1.2 in
  update_tick JSON_stringify d current =
    if truthy value
       && negb (String.eqb (JSON_stringify value) (JSON_stringify current))
    then (value, d', [value]) else (current, d', []).
Proof.
  unfold update_tick. destruct (readLatticeState d) as [[value d'] log]. reflexivity.
Qed.

Lemma update_tick_repeat (d : Disk) (current : jsval) :
  let '(current', d', _) := update_tick JSON_stringify d current in
  update_tick JSON_stringify d' current' = (current', d', []).
Proof.
  rewrite update_tick_cases.
  pose proof (readLatticeState_again d) as Hagain.
  destruct (truthy _ && negb _) eqn:Hsend.
  - rewrite update_tick_cases, Hagain. cbn [fst snd].
    now rewrite String.eqb_refl, andb_false_r.
  - rewrite update_tick_cases, Hagain. cbn [fst snd]. now rewrite Hsend.
Qed.

(** X17: the loop broadcasts a file once.  While nothing else touches the
    disk, whatever the server's current state and however many ticks run,
    everything that is sent is sent by the first tick (at most one state),
    and the current state and the disk stay as the first tick left them. *)
Theorem unchanged_file_broadcast_once (n : nat) (d : Disk) (current : jsval) :
  update_ticks JSON_stringify (S n) d current = update_tick JSON_stringify d current /\
  (length (update_ticks JSON_stringify (S n) d current).2 <= 1)%nat.
Proof.
  assert (update_ticks JSON_stringify (S n) d current
          = update_tick JSON_stringify d current) as Hfirst.
  { revert d current. induction n as [|n IH]; intros d current.
    - cbn. destruct (update_tick JSON_stringify d current) as [[c1 d1] sent].
      now rewrite app_nil_r.
    - change (update_ticks JSON_stringify (S (S n)) d current)
        with (let '(current', d', sent) := update_tick JSON_stringify d current in
              let '(current'', d'', sent') :=
                update_ticks JSON_stringify (S n) d' current' in
              (current'', d'', sent ++ sent')).
      pose proof (update_tick_repeat d current) as Hagain.
      destruct (update_tick JSON_stringify d current) as [[c1 d1] sent].
      rewrite IH, Hagain. now rewrite app_nil_r. }
  split; [exact Hfirst|]. rewrite Hfirst, update_tick_cases.
  destruct (truthy _ && negb _); cbn; lia.
Qed.

Lemma broadcast_run_app disks1 disks2 current :
  broadcast_run JSON_stringify (disks1 ++ disks2) current =
    let '(current', sent) := broadcast_run JSON_stringify disks1 current in
    let '(current'', sent') := broadcast_run JSON_stringify disks2 current' in
    (current'', sent ++ sent').
Proof.
  revert current. induction disks1 as [|d rest IH]; intros current; cbn.
  - now destruct (broadcast_run JSON_stringify disks2 current).
  - destruct (update_tick JSON_stringify d current) as [[c1 d1] sent].
    rewrite IH. destruct (broadcast_run JSON_stringify rest c1) as [c2 sent2].
    destruct (broadcast_run JSON_stringify disks2 c2) as [c3 sent3].
    now rewrite app_assoc.
Qed.

(** X18: the server keeps the last state it broadcast.  From the initial
    null state, whatever the disk holds at each tick, every state sent is
    truthy; the current state is null while nothing was sent and otherwise is
    the last state sent; so a client that connects receives exactly the last
    broadcast, or nothing before the first one. *)
Theorem current_is_last_broadcast (disks : list Disk) :
  let current := (broadcast_run JSON_stringify disks JNull).1 in
  let sent := (broadcast_run JSON_stringify disks JNull).2 in
  Forall (fun state => truthy state = true) sent /\
  (sent = [] -> current = JNull /\ on_connection current = []) /\
  (forall state, last sent = Some state ->
     current = state /\ on_connection current = [state]).
Proof.
  induction disks as [|d disks IH] using rev_ind.
  - cbn. split; [constructor|]. split; [auto | discriminate].
  - rewrite broadcast_run_app. cbn zeta in IH.
    destruct (broadcast_run JSON_stringify disks JNull) as [c1 sent1].
    cbn [fst snd] in IH. destruct IH as (Htruthy & Hnone & Hlast).
    cbn [broadcast_run]. rewrite update_tick_cases.
    destruct (truthy _ && negb _) eqn:Hsend; cbn [fst snd].
    + apply andb_prop in Hsend as [Hvalue _]. rewrite app_nil_r.
      split; [|split].
      * apply Forall_app. split; [exact Htruthy|]. now constructor.
      * intros Hempty. now apply app_eq_nil in Hempty as [_ Hempty].
      * intros state Hstate. rewrite last_snoc in Hstate. injection Hstate as <-.
        unfold on_connection. now rewrite Hvalue.
    + rewrite !app_nil_r. split; [exact Htruthy|]. split; [exact Hnone | exact Hlast].
Qed.

End Broadcast.

(** ** The metrics tick *)

(** X19: what stops the metrics tick.  The tick throws exactly when
    metrics.json parses to null; when the file is missing or malformed it
    still completes and records an entry that holds only the timestamp. *)
Theorem metrics_tick_failure
    (file : option file_text) (now : Z) (history : list jsval) :
  (tick file now history = None <-> file = Some (Parses JNull)) /\
  ((file = None \/ exists raw, file = Some (Malformed raw)) ->
   tick file now history =
     Some (record_metrics (JObj [("timestamp"%string, JNum now)]) history,
           JObj [("timestamp"%string, JNum now)])).
Proof.
  split.
  - destruct file as [[v|raw]|]; cbn; [|split; discriminate..].
    destruct v; cbn; split; congruence.
  - intros [->|[raw ->]]; reflexivity.
Qed.

Lemma metrics_tick_failure_witness :
  tick (Some (Parses JNull)) 5 [] = None /\
  tick (Some (Malformed "{")) 5 [] =
    Some ([JObj [("timestamp"%string, JNum 5)]], JObj [("timestamp"%string, JNum 5)]).
Proof.
  split.
  - apply (metrics_tick_failure (Some (Parses JNull)) 5 []). reflexivity.
  - apply (metrics_tick_failure (Some (Malformed "{")) 5 []). right. now exists "{"%string.
Defined.

Example render_json_default :
  Scenario.render_json defaultState =
    String.append "{" (String.append
      (String.concat ","
         [String.append (String "034"%char "dimensions")
            (String.append (String "034"%char ":") "[1,1,1,1,1,1,1,1]");
          String.append (String "034"%char "phases")
            (String.append (String "034"%char ":") "[0,0,0,0,0,0,0,0]");
          String.append (String "034"%char "tape")
            (String.append (String "034"%char ":") "[0,0,0,0,0,0,0,0]");
          String.append (String "034"%char "timestamp")
            (String.append (String "034"%char ":") "0")]) "}").
Proof. vm_compute. reflexivity. Qed.

Lemma current_is_last_broadcast_witness :
  on_connection
    (broadcast_run Scenario.render_json
       [mkDisk None false; mkDisk None true;
        mkDisk (Some (Parses defaultState)) true] JNull).1
  = [defaultState].
Proof.
  apply (current_is_last_broadcast Scenario.render_json
           [mkDisk None false; mkDisk None true;
            mkDisk (Some (Parses defaultState)) true]).
  vm_compute. reflexivity.
Defined.

End ServerRuns.
